(** * telegram-download-chat: the ingestion engine

    A shallow embedding of
    - [PartialDownloadManager] (partial.py): the JSONL checkpoint store;
    - [DownloadMixin.download_chat] / [download_chat_by_topic]
      (core/download.py): the pagination loop;
    - [get_all_topic_ids] and the per-topic loop of [download_chat]
      (core/download.py);
    - [_dedup_messages], [split_messages_by_date],
      [filter_messages_by_keywords], [analyze_keywords], and the resume
      state and keyword arguments built by [process_chat_download]
      (cli/commands.py).

    Messages fetched from Telegram are Telethon objects ([Obj]); messages
    read back from a JSON file are plain dicts ([Dict]).  A Python dict has
    no attribute [id], which matters for the duplicate test of the fetch
    loop.  Dates are the calendar date [msg.date.date()] of a timestamp. *)

From Stdlib Require Import ZArith List String Ascii Bool Lia.
From stdpp Require Import base gmap list strings pretty.

Import ListNotations.
Open Scope Z_scope.

(* ------------------------------------------------------------------ *)
(** ** Data model *)

(** A calendar date, compared as Python compares [datetime.date]. *)
Record date := mkDate { year : Z; month : Z; day : Z }.

Definition date_lt (a b : date) : bool :=
  (year a <? year b)
  || ((year a =? year b) && ((month a <? month b)
      || ((month a =? month b) && (day a <? day b)))).

(** A Telethon [Message]: [t_id = None] when the object has no [id]
    attribute, [t_date = None] when [msg.date] is missing or falsy. *)
Record tmsg := mkT { t_id : option Z; t_date : option date; t_text : string }.

(** A serialized message dict; [j_id = None] when the key ["id"] is absent. *)
Record jdict := mkJ { j_id : option Z; j_date : option date; j_text : string }.

Inductive pymsg :=
| Obj (m : tmsg)
| Dict (d : jdict).

(** [msg.to_dict()] followed by [make_serializable]: a Telethon message
    becomes the dict of its fields; a dict is kept as it is. *)
Definition serialize (m : pymsg) : jdict :=
  match m with
  | Obj t => mkJ (t_id t) (t_date t) (t_text t)
  | Dict d => d
  end.

(** [getattr(m, "id", None)] for an object, [m.get("id")] for a dict. *)
Definition py_id (m : pymsg) : option Z :=
  match m with
  | Obj t => t_id t
  | Dict d => j_id d
  end.

(** [hasattr(m, "id") and m.id]: attribute access only, dicts have none. *)
Definition attr_id (m : pymsg) : option Z :=
  match m with
  | Obj t => t_id t
  | Dict _ => None
  end.

(* ------------------------------------------------------------------ *)
(** ** [_dedup_messages] (cli/commands.py) *)

Fixpoint dedup_go (seen : gset Z) (l : list pymsg) : list pymsg :=
  match l with
  | [] => []
  | m :: rest =>
      match py_id m with
      | None => m :: dedup_go seen rest
      | Some mid =>
          if decide (mid ∈ seen) then dedup_go seen rest
          else m :: dedup_go ({[mid]} ∪ seen) rest
      end
  end.

Definition _dedup_messages (l : list pymsg) : list pymsg := dedup_go ∅ l.

(** The ids carried by a list of messages, id-less ones left out. *)
Definition ids_of (l : list pymsg) : list Z := omap py_id l.

(** Whether the message at the end of [l ++ [m]] is kept: it has no id, or
    its id does not occur earlier. *)
Definition first_seen (l : list pymsg) (m : pymsg) : bool :=
  match py_id m with
  | None => true
  | Some i => negb (bool_decide (i ∈ ids_of l))
  end.

(* ------------------------------------------------------------------ *)
(** ** The checkpoint store ([PartialDownloadManager], partial.py) *)

(** [Path]: a path split as pathlib splits it, into everything before the
    suffix and the suffix. *)
Record path := mkPath { p_stem : string; p_suffix : string }.

Definition path_str (p : path) : string := p_stem p +:+ p_suffix p.

Definition with_suffix (p : path) (s : string) : path := mkPath (p_stem p) s.

Definition get_temp_file_path (output_file : path) (topic_id : option Z) : path :=
  match topic_id with
  | Some t => with_suffix output_file ("." +:+ pretty t +:+ ".part.jsonl")
  | None => with_suffix output_file ".part.jsonl"
  end.

(** A line of the JSONL file, as [line.strip()] and [json.loads] see it. *)
Inductive jline :=
| LBlank                           (* empty after strip *)
| LInvalid                         (* json.loads raises JSONDecodeError *)
| LOther                           (* valid JSON, but not a dict with "m" *)
| LRecord (m : jdict) (i : option Z). (* {"m": m, "i": i}; i = None: no "i" *)

(** The files on disk and the process-wide map [_last_saved_ids], both
    keyed by the rendered path of the temporary file. *)
Record store := mkStore {
  files : gmap string (list jline);
  last_saved_ids : gmap string Z
}.

(** The loop of [save_messages]: [(records written, new_last_id)]. *)
Fixpoint save_loop (last_saved_id new_last_id : Z) (msgs : list pymsg)
  : list jline * Z :=
  match msgs with
  | [] => ([], new_last_id)
  | msg :: rest =>
      let serialized := serialize msg in
      let msg_id := default 0 (j_id serialized) in
      if msg_id >? last_saved_id then
        let '(recs, nl) :=
          save_loop last_saved_id (if msg_id >? new_last_id then msg_id else new_last_id) rest in
        (LRecord serialized (Some msg_id) :: recs, nl)
      else save_loop last_saved_id new_last_id rest
  end.

Definition save_messages (st : store) (messages : list pymsg)
    (output_file : path) (topic_id : option Z) : store :=
  let k := path_str (get_temp_file_path output_file topic_id) in
  let last_saved_id := default 0 (last_saved_ids st !! k) in
  let '(recs, new_last_id) := save_loop last_saved_id last_saved_id messages in
  (* open(temp_file, "a"): creates the file, appends the records *)
  let files' := <[k := default [] (files st !! k) ++ recs]> (files st) in
  let ids' := if new_last_id >? last_saved_id
              then <[k := new_last_id]> (last_saved_ids st)
              else last_saved_ids st in
  mkStore files' ids'.

(** The loop of [load_messages] over the lines of the file. *)
Fixpoint load_loop (messages : list jdict) (last_id : Z) (ls : list jline)
  : list jdict * Z :=
  match ls with
  | [] => (messages, last_id)
  | LRecord m i :: rest => load_loop (messages ++ [m]) (default last_id i) rest
  | _ :: rest => load_loop messages last_id rest
  end.

Definition load_messages (st : store) (output_file : path) (topic_id : option Z)
  : store * (list jdict * Z) :=
  let k := path_str (get_temp_file_path output_file topic_id) in
  match files st !! k with
  | None => (st, ([], 0))
  | Some ls =>
      let '(messages, last_id) := load_loop [] 0 ls in
      (mkStore (files st) (<[k := last_id]> (last_saved_ids st)), (messages, last_id))
  end.

(* ------------------------------------------------------------------ *)
(** ** [datetime.strptime(s, "%Y-%m-%d")]

    [%Y] is four digits, [%m] one or two digits in 1..12, [%d] one or two
    digits in 1..31 (or a blank and one digit); the whole string must be
    consumed and the day must exist in that month, else [ValueError]. *)

Definition digit (c : ascii) : option Z :=
  let n := Z.of_nat (nat_of_ascii c) in
  if (48 <=? n) && (n <=? 57) then Some (n - 48) else None.

Definition is_leap (y : Z) : bool :=
  ((y mod 4 =? 0) && negb (y mod 100 =? 0)) || (y mod 400 =? 0).

Definition days_in_month (y m : Z) : Z :=
  if m =? 2 then (if is_leap y then 29 else 28)
  else if (m =? 4) || (m =? 6) || (m =? 9) || (m =? 11) then 30 else 31.

(** One or two digits, then the rest of the string. *)
Definition two_digits (s : string) : option (Z * string) :=
  match s with
  | String a (String b rest) =>
      match digit a, digit b with
      | Some x, Some y => Some (10 * x + y, rest)
      | Some x, None => Some (x, String b rest)
      | _, _ => None
      end
  | String a EmptyString =>
      match digit a with Some x => Some (x, EmptyString) | None => None end
  | _ => None
  end.

Definition parse_day (s : string) : option Z :=
  match s with
  | String " "%char (String a EmptyString) =>
      match digit a with Some x => Some x | None => None end
  | _ => match two_digits s with Some (d, EmptyString) => Some d | _ => None end
  end.

Definition strptime_ymd (s : string) : option date :=
  match s with
  | String y1 (String y2 (String y3 (String y4 (String "-"%char rest)))) =>
      match digit y1, digit y2, digit y3, digit y4, two_digits rest with
      | Some a, Some b, Some c, Some d, Some (m, String "-"%char drest) =>
          let y := 1000 * a + 100 * b + 10 * c + d in
          match parse_day drest with
          | Some dd =>
              if (1 <=? y) && (1 <=? m) && (m <=? 12)
                 && (1 <=? dd) && (dd <=? days_in_month y m)
              then Some (mkDate y m dd) else None
          | None => None
          end
      | _, _, _, _, _ => None
      end
  | _ => None
  end.

(* ------------------------------------------------------------------ *)
(** ** The fetch loop of [download_chat_by_topic] (core/download.py) *)

(** The keyword arguments of [download_chat_by_topic]; [output_file = None]
    also stands for an empty string.  The entity is assumed resolved. *)
Record config := mkConfig {
  request_limit : Z;
  total_limit : Z;
  output_file : option path;
  save_partial : bool;
  until_date : option string;
  since_id : option Z;
  topic_id : option Z
}.

(** [if until_date]: a non-empty string. *)
Definition until_set (c : config) : option string :=
  match until_date c with
  | Some EmptyString | None => None
  | Some u => Some u
  end.

(** [if output_file and save_partial]. *)
Definition partial_on (c : config) : bool :=
  match output_file c with Some _ => save_partial c | None => false end.

Inductive pyerr :=
| ValueError          (* strptime on a malformed until_date *)
| AttributeError      (* msg.id on a page message without id *)
| RPCError (code : Z). (* any transport error other than FloodWaitError *)

(** [any(hasattr(m, "id") and m.id == msg.id for m in all_messages)]. *)
Definition already_fetched (all_messages : list pymsg) (mid : Z) : bool :=
  existsb (fun m => match attr_id m with
                    | Some x => x =? mid
                    | None => false end) all_messages.

(** The per-message loop (lines 176-199): the messages of [history]
    appended to [new_messages], or the exception it raises. *)
Fixpoint scan (c : config) (all_messages : list pymsg) (history : list tmsg)
  : sum pyerr (list tmsg) :=
  match history with
  | [] => inr []
  | msg :: rest =>
      match t_id msg with
      | None => scan c all_messages rest
      | Some mid =>
          if already_fetched all_messages mid then scan c all_messages rest
          else
            let keep := match since_id c with
                        | None => true
                        | Some k => mid >? k end in
            let continue_ :=
              match scan c all_messages rest with
              | inl e => inl e
              | inr acc => inr (if keep then msg :: acc else acc)
              end in
            match until_set c, t_date msg with
            | Some u, Some msg_date =>
                match strptime_ymd u with
                | None => inl ValueError
                | Some until => if date_lt msg_date until then inr [] else continue_
                end
            | _, _ => continue_
            end
      end
  end.

(** [min(msg.id for msg in history)]: [None] when a message has no id. *)
Definition page_min (history : list tmsg) : option Z :=
  match mapM t_id history with
  | Some (x :: xs) => Some (fold_left Z.min xs x)
  | _ => None
  end.

Inductive event :=
| EFetch (offset_id limit min_id : Z)
| ESleep (seconds : Z)
| ESave (messages : list pymsg).

Record sess := mkSess {
  offset_id : Z;
  all_messages : list pymsg;
  last_save : Z;
  stop_requested : bool;
  st : store;
  trace : list event
}.

Definition set_offset (s : sess) (o : Z) : sess :=
  mkSess o (all_messages s) (last_save s) (stop_requested s) (st s) (trace s).
Definition set_all (s : sess) (l : list pymsg) : sess :=
  mkSess (offset_id s) l (last_save s) (stop_requested s) (st s) (trace s).
Definition set_last_save (s : sess) (t : Z) : sess :=
  mkSess (offset_id s) (all_messages s) t (stop_requested s) (st s) (trace s).
Definition set_stop (s : sess) : sess :=
  mkSess (offset_id s) (all_messages s) (last_save s) true (st s) (trace s).
Definition add_event (s : sess) (e : event) : sess :=
  mkSess (offset_id s) (all_messages s) (last_save s) (stop_requested s) (st s)
    (trace s ++ [e]).

(** [self._save_partial_messages(all_messages, output_path, topic_id)]. *)
Definition do_save (c : config) (s : sess) : sess :=
  match output_file c with
  | Some out =>
      mkSess (offset_id s) (all_messages s) (last_save s) (stop_requested s)
        (save_messages (st s) (all_messages s) out (topic_id c))
        (trace s ++ [ESave (all_messages s)])
  | None => s
  end.

Inductive step :=
| Break (s : sess)
| Raise (e : pyerr) (s : sess)
| Next (s : sess).

Definition save_interval : Z := 60.

(** Lines 172-234: one page [history] received, [now] the loop clock. *)
Definition page_step (c : config) (history : list tmsg) (now : Z) (s : sess) : step :=
  match history with
  | [] => Break s
  | _ :: _ =>
      match scan c (all_messages s) history with
      | inl e => Raise e s
      | inr new_messages =>
          let s1 := set_all s (all_messages s ++ map Obj new_messages) in
          match new_messages with
          | [] => Break s1
          | _ :: _ =>
              if bool_decide (is_Some (until_set c)) && (length new_messages <? length history)%nat
              then Break s1
              else
                match page_min history with
                | None => Raise AttributeError s1
                | Some off =>
                    let s2 := set_offset s1 off in
                    let stop_since := match since_id c with
                                      | Some k => off <=? k
                                      | None => false end in
                    if stop_since then Break s2
                    else
                      let total_fetched := Z.of_nat (length (all_messages s2)) in
                      let s3 := if partial_on c && (now - last_save s2 >? save_interval)
                                then set_last_save (do_save c s2) now else s2 in
                      if (total_limit c >? 0) && (total_fetched >=? total_limit c)
                      then Break s3 else Next s3
                end
          end
      end
  end.

(** What the environment supplies at each iteration: the stop flag (or the
    stop file) observed set, or the answer to the page request together
    with the event-loop clock read after it. *)
Inductive response :=
| RPage (history : list tmsg)
| RFlood (seconds : Z)
| RFail (code : Z).

Inductive input :=
| IStop
| IResp (r : response) (now : Z).

Inductive loop_result :=
| LDone (s : sess)
| LRaise (e : pyerr) (s : sess)
| LPending (s : sess). (* the environment script ran out *)

(** The [while True] loop (lines 145-234). *)
Fixpoint fetch_loop (c : config) (inputs : list input) (s : sess) : loop_result :=
  if stop_requested s then LDone s
  else
    match inputs with
    | [] => LPending s
    | IStop :: _ => LDone (set_stop s)
    | IResp r now :: rest =>
        let s1 := add_event s (EFetch (offset_id s) (request_limit c) (default 0 (since_id c))) in
        match r with
        | RFail code => LRaise (RPCError code) s1
        | RFlood seconds =>
            let wait := seconds + 1 in
            let s2 := if partial_on c && negb (bool_decide (all_messages s1 = []))
                      then do_save c s1 else s1 in
            fetch_loop c rest (add_event s2 (ESleep wait))
        | RPage history =>
            match page_step c history now s1 with
            | Break s' => LDone s'
            | Raise e s' => LRaise e s'
            | Next s' => fetch_loop c rest s'
            end
        end
    end.

(** Lines 127-143: the cursor and buffer the loop starts from. *)
Definition init_session (c : config) (st0 : store) (t0 : Z) (stop0 : bool) : sess :=
  let offset := default 0 (since_id c) in
  match output_file c with
  | Some out =>
      if save_partial c then
        let '(st1, (loaded, last_id)) := load_messages st0 out (topic_id c) in
        match loaded with
        | [] => mkSess offset [] t0 stop0 st1 []
        | _ :: _ => mkSess (Z.max offset last_id) (map Dict loaded) t0 stop0 st1 []
        end
      else mkSess offset [] t0 stop0 st0 []
  | None => mkSess offset [] t0 stop0 st0 []
  end.

Inductive outcome :=
| Returned (messages : list pymsg)
| Raised (e : pyerr)
| Pending.

Definition download_chat_by_topic (c : config) (st0 : store) (t0 : Z) (stop0 : bool)
    (inputs : list input) : outcome * sess :=
  match fetch_loop c inputs (init_session c st0 t0 stop0) with
  | LDone s =>
      let s' := if partial_on c && negb (bool_decide (all_messages s = []))
                then do_save c s else s in
      let all := all_messages s' in
      let res := if (total_limit c >? 0) && (Z.of_nat (length all) >=? total_limit c)
                 then firstn (Z.to_nat (total_limit c)) all else all in
      (Returned res, s')
  | LRaise e s => (Raised e, s)
  | LPending s => (Pending, s)
  end.

(** The same keyword arguments with [until_date] set to [v]. *)
Definition with_until (c : config) (v : string) : config :=
  mkConfig (request_limit c) (total_limit c) (output_file c) (save_partial c)
    (Some v) (since_id c) (topic_id c).

(* ------------------------------------------------------------------ *)
(** ** Derived notions used in the statements *)

(** [serialized.get("id", 0)] in [save_messages]. *)
Definition msg_id (m : pymsg) : Z := default 0 (j_id (serialize m)).

(** The JSONL record [save_messages] writes for [m]. *)
Definition record_of (m : pymsg) : jline := LRecord (serialize m) (Some (msg_id m)).

(** A sequence of [save_messages] calls on one (output file, topic); also
    returns the messages the calls appended, in file order. *)
Fixpoint flush_seq (s : store) (out : path) (topic : option Z)
    (buffers : list (list pymsg)) : store * list pymsg :=
  match buffers with
  | [] => (s, [])
  | b :: rest =>
      let wm := default 0 (last_saved_ids s !! path_str (get_temp_file_path out topic)) in
      let appended := filter (fun m => wm < msg_id m) b in
      let '(s', more) := flush_seq (save_messages s b out topic) out topic rest in
      (s', appended ++ more)
  end.

(** The id of the last message of a list, 0 for the empty list. *)
Definition last_msg_id (l : list pymsg) : Z :=
  match last l with Some m => msg_id m | None => 0 end.

(** The largest id of a list, 0 for the empty list. *)
Definition max_msg_id (l : list pymsg) : Z := fold_right (fun m acc => Z.max (msg_id m) acc) 0 l.

(** The smallest id among dicts loaded from a checkpoint. *)
Definition min_loaded_id (l : list jdict) : option Z :=
  match omap j_id l with
  | x :: xs => Some (fold_left Z.min xs x)
  | [] => None
  end.

(* ------------------------------------------------------------------ *)
(** ** Calling [download_chat] with [download_kwargs] (cli/commands.py) *)

(** The parameters of [DownloadMixin.download_chat] (core/download.py). *)
Definition download_chat_params : list string :=
  ["chat_id"; "request_limit"; "total_limit"; "output_file"; "save_partial";
   "silent"; "until_date"; "since_id"].

Inductive call_result :=
| CallOk
| CallTypeError (unexpected_keyword : string).

(** Python binds keyword arguments by name: the first keyword that names
    no parameter (and there is no catch-all keyword parameter) raises [TypeError]. *)
Definition call_kwargs (params keys : list string) : call_result :=
  match find (fun k => negb (bool_decide (k ∈ params))) keys with
  | Some k => CallTypeError k
  | None => CallOk
  end.

(** The options of [process_chat_download] that shape [download_kwargs]. *)
Record cli_args := mkArgs {
  a_last_days : option Z;
  a_until : option string;
  a_from_date : option string
}.

Definition truthy (s : option string) : bool :=
  match s with Some EmptyString | None => false | Some _ => true end.

(** The keys of [download_kwargs] (lines 277-298), or the [ValueError] of
    [datetime.strptime(base_str, ...)] when [--last-days] is given;
    [today] is [datetime.utcnow().strftime("%Y-%m-%d")]. *)
Definition download_kwargs_keys (a : cli_args) (since_id : option Z) (today : string)
  : sum pyerr (list string) :=
  let base := ["chat_id"; "request_limit"; "total_limit"; "output_file";
               "silent"; "save_partial"] in
  let with_since k := k ++ (match since_id with Some _ => ["since_id"] | None => [] end) in
  let with_from k := k ++ (if truthy (a_from_date a) then ["from_date"] else []) in
  match a_last_days a with
  | Some _ =>
      let base_str := if truthy (a_from_date a) then default "" (a_from_date a) else today in
      match strptime_ymd base_str with
      | None => inl ValueError
      | Some _ => inr (with_since (with_from (base ++ ["until_date"])))
      end
  | None =>
      inr (with_since (with_from (base ++ (if truthy (a_until a) then ["until_date"] else []))))
  end.

(* ------------------------------------------------------------------ *)
(** ** Sample inputs *)

Definition chat_json : path := mkPath "chat" ".json".

Definition tm (i : Z) (d : option date) : tmsg := mkT (Some i) d "".

Definition empty_store : store := mkStore ∅ ∅.

(** A download without [since_id], [until_date] or a limit, with partial
    saving to [chat.json]. *)
Definition cfg_partial : config := mkConfig 100 0 (Some chat_json) true None None None.

(** A checkpoint after: a flush of ids 10, 9, 8, a crash, a resume that
    loads them, two more messages 7, 6 fetched, and a second flush. *)
Definition ckpt_after_resume : store :=
  let st1 := save_messages empty_store [Obj (tm 10 None); Obj (tm 9 None); Obj (tm 8 None)]
               chat_json None in
  let '(st2, (loaded, _)) := load_messages st1 chat_json None in
  save_messages st2 (map Dict loaded ++ [Obj (tm 7 None); Obj (tm 6 None)]) chat_json None.

(* ------------------------------------------------------------------ *)
(** ** Python dicts as insertion-ordered association lists *)

(** [d[k] = v]: an existing key keeps its position, a new key goes last. *)
Fixpoint py_dict_set {K V : Type} `{EqDecision K} (d : list (K * V)) (k : K) (v : V)
  : list (K * V) :=
  match d with
  | [] => [(k, v)]
  | (k', v') :: rest => if decide (k = k') then (k, v) :: rest
                        else (k', v') :: py_dict_set rest k v
  end.

(* ------------------------------------------------------------------ *)
(** ** [get_all_topic_ids] and [download_chat] (core/download.py) *)

(** The outcome of [GetForumTopicsRequest] for a megagroup: a reply with a
    [topics] list of [(topic.id, topic.title)], a falsy reply or one with no
    [topics] attribute, [ChannelForumMissingError], or any other exception. *)
Inductive topics_reply :=
| TopicsOk (topics : list (Z * string))
| TopicsNone
| ForumMissing
| TopicsError.

(** [megagroup]: [hasattr(chat_entity, 'megagroup') and chat_entity.megagroup]. *)
Definition get_all_topic_ids (megagroup : bool) (r : topics_reply) : list (Z * string) :=
  let topics_map := [(1, "General")] in
  if negb megagroup then []
  else
    match r with
    | TopicsOk ts => fold_left (fun m '(i, t) => py_dict_set m i t) ts topics_map
    | TopicsNone => topics_map
    | ForumMissing => [(1, "General")]
    | TopicsError => []
    end.

Definition with_topic (c : config) (t : option Z) : config :=
  mkConfig (request_limit c) (total_limit c) (output_file c) (save_partial c)
    (until_date c) (since_id c) t.

Inductive dresult :=
| DReturned (messages_by_topic : list (string * list pymsg))
| DRaised (e : pyerr)
| DPending.

(** The forum branch: one [download_chat_by_topic] per topic, in dict
    order, sharing the checkpoint store and [self._stop_requested]; each
    run is given its clock at start and its environment script.  Also
    returns the final session of every run made. *)
Fixpoint download_topics (c : config) (topics : list (Z * string))
    (runs : list (Z * list input)) (st_ : store) (stop : bool)
    (acc : list (string * list pymsg)) : dresult * list sess :=
  match topics with
  | [] => (DReturned acc, [])
  | (tid, title) :: rest =>
      let '(t0, inputs) := default (0, []) (head runs) in
      match download_chat_by_topic (with_topic c (Some tid)) st_ t0 stop inputs with
      | (Returned msgs, s) =>
          let '(r, ss) := download_topics c rest (tail runs) (st s) (stop_requested s)
                            (py_dict_set acc title msgs) in
          (r, s :: ss)
      | (Raised e, s) => (DRaised e, [s])
      | (Pending, s) => (DPending, [s])
      end
  end.

(** Lines 71-104, the entity being resolved. *)
Definition download_chat (c : config) (topics : list (Z * string))
    (runs : list (Z * list input)) (st0 : store) (stop0 : bool) : dresult * list sess :=
  if (1 <? length topics)%nat then download_topics c topics runs st0 stop0 []
  else
    let '(t0, inputs) := default (0, []) (head runs) in
    match download_chat_by_topic (with_topic c None) st0 t0 stop0 inputs with
    | (Returned msgs, s) => (DReturned [("Main Chat", msgs)], [s])
    | (Raised e, s) => (DRaised e, [s])
    | (Pending, s) => (DPending, [s])
    end.

(* ------------------------------------------------------------------ *)
(** ** Resuming from an existing output file ([process_chat_download]) *)

(** What [json.load] finds at the output path: no file, a file that fails
    to open or parse, a JSON list (its elements as messages, whose ["id"]
    values are integers; a non-dict element or a dict without ["id"] has
    no id), or another JSON value. *)
Inductive json_file :=
| NoFile
| Unreadable
| JsonList (data : list pymsg)
| JsonOther.

(** Lines 247-266: [(existing_messages, since_id)]. *)
Definition resume_state (overwrite : bool) (since_arg : option Z) (f : json_file)
  : list pymsg * option Z :=
  if overwrite then ([], since_arg)
  else
    match since_arg with
    | Some _ => ([], since_arg)
    | None =>
        match f with
        | JsonList data =>
            match omap py_id data with
            | i :: is => (data, Some (fold_left Z.max is i))
            | [] => (data, None)
            end
        | _ => ([], None)
        end
    end.

(* ------------------------------------------------------------------ *)
(** ** [split_messages_by_date] (cli/commands.py) *)

(** [split_messages.setdefault(key, []).append(msg)]. *)
Fixpoint setdefault_append {A : Type} (d : list (string * list A)) (k : string) (msg : A)
  : list (string * list A) :=
  match d with
  | [] => [(k, [msg])]
  | (k', v) :: rest => if decide (k = k') then (k', v ++ [msg]) :: rest
                       else (k', v) :: setdefault_append rest k msg
  end.

Section Split.
(** [date_key msg]: [parsed_date.strftime(...)] for the [split_by] mode, or
    [None] when [_parse_date] of the message's date gives [None] or
    [strftime] raises; both cases [continue]. *)
Variable date_key : pymsg -> option string.

Fixpoint split_go (acc : list (string * list pymsg)) (messages : list pymsg)
  : list (string * list pymsg) :=
  match messages with
  | [] => acc
  | msg :: rest =>
      match date_key msg with
      | None => split_go acc rest
      | Some key => split_go (setdefault_append acc key msg) rest
      end
  end.

Definition split_messages_by_date (messages : list pymsg) : list (string * list pymsg) :=
  split_go [] messages.
End Split.

(** [d.get(key)] on an association list: the first entry with that key. *)
Fixpoint assoc_lookup {A : Type} (key : string) (d : list (string * A)) : option A :=
  match d with
  | [] => None
  | (k, v) :: rest => if decide (key = k) then Some v else assoc_lookup key rest
  end.

(* ------------------------------------------------------------------ *)
(** ** Keyword filtering and analysis (cli/commands.py) *)

(** Python's [kw in text] on strings. *)
Fixpoint str_contains (kw text : string) : bool :=
  String.prefix kw text
  || match text with
     | EmptyString => false
     | String _ rest => str_contains kw rest
     end.

Record kw_match := mkMatch {
  km_username : option string;
  km_text : string;
  km_url : option string
}.

Record kw_result := mkKwResult {
  kr_text : string;
  kr_count : Z;
  kr_messages : list kw_match
}.

Section Keywords.
(** [str.strip] and [str.lower]; [_message_text(msg)]; the [username] and
    [url] fields [analyze_keywords] builds from [from_id], [peer_id] and
    [id] of a matching message. *)
Variable strip lower : string -> string.
Variable message_text : pymsg -> string.
Variable username_of url_of : pymsg -> option string.

Definition filter_messages_by_keywords (messages : list pymsg) (keywords : list string)
  : list pymsg :=
  match keywords with
  | [] => messages
  | _ :: _ =>
      let kw_lower := map (fun k => lower (strip k))
                        (filter (fun k => negb (String.eqb (strip k) "")) keywords) in
      match kw_lower with
      | [] => messages
      | _ :: _ =>
          filter (fun msg => existsb (fun kw => str_contains kw (lower (message_text msg)))
                               kw_lower) messages
      end
  end.

(** The inner loop for one keyword: [(count, matches)]. *)
Fixpoint analyze_one (kw_lower : string) (messages : list pymsg) : Z * list kw_match :=
  match messages with
  | [] => (0, [])
  | msg :: rest =>
      let text_str := message_text msg in
      let '(count, matches) := analyze_one kw_lower rest in
      if str_contains kw_lower (lower text_str)
      then (count + 1, mkMatch (username_of msg) text_str (url_of msg) :: matches)
      else (count, matches)
  end.

Fixpoint analyze_keywords (keywords : list string) (messages : list pymsg) : list kw_result :=
  match keywords with
  | [] => []
  | kw0 :: rest =>
      let kw := strip kw0 in
      if String.eqb kw "" then analyze_keywords rest messages
      else
        let '(count, matches) := analyze_one (lower kw) messages in
        mkKwResult kw count matches :: analyze_keywords rest messages
  end.
End Keywords.

(* ================================================================== *)
(** * Properties *)

(* ------------------------------------------------------------------ *)
(** ** Deduplication *)

Lemma ids_of_app (l1 l2 : list pymsg) : ids_of (l1 ++ l2) = ids_of l1 ++ ids_of l2.
Proof. apply omap_app. Qed.

Lemma dedup_go_app (seen : gset Z) (l1 l2 : list pymsg) :
  dedup_go seen (l1 ++ l2)
  = dedup_go seen l1 ++ dedup_go (seen ∪ list_to_set (ids_of l1)) l2.
Proof.
  revert seen. induction l1 as [|m l1 IH]; intros seen; simpl.
  - f_equal. unfold ids_of. simpl. set_solver.
  - unfold ids_of in *. destruct (py_id m) as [mid|] eqn:E; simpl.
    + case_decide as Hin.
      * rewrite IH. f_equal. f_equal. set_solver.
      * simpl. rewrite IH. f_equal. f_equal. f_equal. set_solver.
    + by rewrite IH.
Qed.

Lemma dedup_go_single (seen : gset Z) (m : pymsg) :
  dedup_go seen [m] =
  match py_id m with
  | None => [m]
  | Some i => if decide (i ∈ seen) then [] else [m]
  end.
Proof. simpl. destruct (py_id m); [case_decide|]; done. Qed.

Lemma dedup_go_nodup (seen : gset Z) (l : list pymsg) :
  NoDup (ids_of (dedup_go seen l)) /\
  (forall i, i ∈ ids_of (dedup_go seen l) -> i ∉ seen).
Proof.
  revert seen. unfold ids_of. induction l as [|m l IH]; intros seen; simpl.
  - split; [constructor | intros i Hi; inversion Hi].
  - destruct (py_id m) as [mid|] eqn:E; simpl.
    + case_decide as Hin; [apply IH|].
      simpl. rewrite E. destruct (IH ({[mid]} ∪ seen)) as [Hnd Hout].
      split.
      * constructor; [|done]. intros Hm. apply (Hout mid Hm). set_solver.
      * intros i Hi. apply elem_of_cons in Hi as [->|Hi]; [done|].
        specialize (Hout i Hi). set_solver.
    + rewrite E. apply IH.
Qed.

Lemma dedup_go_idless (seen : gset Z) (l : list pymsg) :
  filter (fun m => py_id m = None) (dedup_go seen l) = filter (fun m => py_id m = None) l.
Proof.
  revert seen. induction l as [|m l IH]; intros seen; simpl; [done|].
  destruct (py_id m) as [mid|] eqn:E.
  - rewrite filter_cons_False by congruence.
    case_decide; [apply IH|]. rewrite filter_cons_False by congruence. apply IH.
  - rewrite !filter_cons_True by done. by rewrite IH.
Qed.

(** C9: merging an existing list [E] with a fresh list [N] by
    [_dedup_messages(E + N)] keeps a message exactly when it has no id or
    its id occurs in no earlier message (so the first occurrence of each id
    is kept, later ones are dropped, and the first-seen order is kept); all
    id-less messages survive, and no id occurs twice in the result. *)
Theorem dedup_messages_merge (E N : list pymsg) :
  _dedup_messages [] = [] /\
  (forall (l : list pymsg) (m : pymsg),
     _dedup_messages (l ++ [m])
     = _dedup_messages l ++ (if first_seen l m then [m] else [])) /\
  filter (fun m => py_id m = None) (_dedup_messages (E ++ N))
    = filter (fun m => py_id m = None) (E ++ N) /\
  NoDup (ids_of (_dedup_messages (E ++ N))).
Proof.
  split; [done|]. split; [|split].
  - intros l m. unfold _dedup_messages. rewrite dedup_go_app, dedup_go_single.
    unfold first_seen. f_equal. destruct (py_id m) as [i|]; [|done].
    case_bool_decide as H1; case_decide as H2; simpl; try done.
    + exfalso. apply H2. apply elem_of_union_r. by apply elem_of_list_to_set.
    + exfalso. apply H1. apply elem_of_union in H2 as [H2|H2]; [set_solver|].
      by apply elem_of_list_to_set in H2.
  - apply dedup_go_idless.
  - apply dedup_go_nodup.
Qed.

(* ------------------------------------------------------------------ *)
(** ** The checkpoint store *)

Lemma save_loop_fst (last : Z) (msgs : list pymsg) :
  forall nl, fst (save_loop last nl msgs) = map record_of (filter (fun m => last < msg_id m) msgs).
Proof.
  induction msgs as [|m ms IH]; intros nl; simpl; [done|].
  destruct (Z.gtb_spec (default 0 (j_id (serialize m))) last) as [H|H].
  - rewrite filter_cons_True by (unfold msg_id; lia). simpl.
    match goal with |- context [save_loop ?a ?b ?c] =>
      specialize (IH b); destruct (save_loop a b c) eqn:Hs end.
    simpl in *. by rewrite IH.
  - rewrite filter_cons_False by (unfold msg_id; lia). apply IH.
Qed.

Lemma save_loop_snd (last : Z) (msgs : list pymsg) :
  forall nl, nl <= snd (save_loop last nl msgs) /\
    (forall m, m ∈ msgs -> last < msg_id m -> msg_id m <= snd (save_loop last nl msgs)).
Proof.
  induction msgs as [|m ms IH]; intros nl; simpl.
  - split; [lia|]. intros m Hm. inversion Hm.
  - destruct (Z.gtb_spec (default 0 (j_id (serialize m))) last) as [H|H].
    + match goal with |- context [save_loop ?a ?b ?c] =>
        destruct (IH b) as [IH1 IH2]; destruct (save_loop a b c) as [recs nl'] eqn:Hs end.
      simpl in *. split.
      * destruct (Z.gtb_spec (default 0 (j_id (serialize m))) nl); lia.
      * intros m' Hm' Hlt. apply elem_of_cons in Hm' as [->|Hm']; [|by apply IH2].
        unfold msg_id in *. destruct (Z.gtb_spec (default 0 (j_id (serialize m))) nl); lia.
    + destruct (IH nl) as [IH1 IH2]. split; [done|].
      intros m' Hm' Hlt. apply elem_of_cons in Hm' as [->|Hm']; [unfold msg_id in *; lia|].
      by apply IH2.
Qed.

Lemma filter_above_nil (w : Z) (l : list pymsg) :
  (forall m, m ∈ l -> msg_id m <= w) -> filter (fun m => w < msg_id m) l = [].
Proof.
  induction l as [|m l IH]; intros Hle; [done|].
  rewrite filter_cons_False.
  - apply IH. intros m' Hm'. apply Hle. by apply elem_of_cons; right.
  - specialize (Hle m ltac:(by apply elem_of_cons; left)). lia.
Qed.

(** What one [save_messages] call does to the checkpoint files. *)
Lemma save_messages_files (st0 : store) (messages : list pymsg) (out : path) (topic : option Z) :
  let k := path_str (get_temp_file_path out topic) in
  let wm := default 0 (last_saved_ids st0 !! k) in
  files (save_messages st0 messages out topic) !! k
    = Some (default [] (files st0 !! k)
            ++ map record_of (filter (fun m => wm < msg_id m) messages)) /\
  (forall k', k' <> k -> files (save_messages st0 messages out topic) !! k' = files st0 !! k').
Proof.
  intros k wm. unfold save_messages. fold k. fold wm.
  pose proof (save_loop_fst wm messages wm) as Hf.
  destruct (save_loop wm wm messages) as [recs nl] eqn:Hs. simpl in *. subst recs.
  split.
  - by rewrite lookup_insert_eq.
  - intros k' Hne. by rewrite lookup_insert_ne by congruence.
Qed.

(** After a [save_messages] call, every message of its buffer has an id at
    most the recorded watermark. *)
Lemma save_messages_watermark (st0 : store) (messages : list pymsg) (out : path) (topic : option Z) :
  let k := path_str (get_temp_file_path out topic) in
  default 0 (last_saved_ids st0 !! k)
    <= default 0 (last_saved_ids (save_messages st0 messages out topic) !! k) /\
  forall m, m ∈ messages ->
    msg_id m <= default 0 (last_saved_ids (save_messages st0 messages out topic) !! k).
Proof.
  intros k. unfold save_messages. fold k.
  set (wm := default 0 (last_saved_ids st0 !! k)).
  pose proof (save_loop_snd wm messages wm) as [H1 H2].
  destruct (save_loop wm wm messages) as [recs nl] eqn:Hs. simpl in *.
  assert (Hw : nl <= default 0 ((if nl >? wm then <[k:=nl]> (last_saved_ids st0)
                                 else last_saved_ids st0) !! k) /\
               wm <= default 0 ((if nl >? wm then <[k:=nl]> (last_saved_ids st0)
                                 else last_saved_ids st0) !! k)).
  { destruct (Z.gtb_spec nl wm).
    - rewrite lookup_insert_eq. simpl. lia.
    - fold wm. lia. }
  destruct Hw as [Hw1 Hw2]. split; [done|].
  intros m Hm. destruct (Z.lt_ge_cases wm (msg_id m)) as [Hlt|Hge].
  - specialize (H2 m Hm Hlt). lia.
  - lia.
Qed.

(** C3: [save_messages] appends to the checkpoint of [(output_file,
    topic_id)] exactly the messages of the buffer whose id exceeds the
    watermark recorded for it, in buffer order, after the existing records
    (which are kept), touches no other checkpoint file, and a second
    [save_messages] of the same buffer appends nothing. *)
Theorem save_messages_appends_above_watermark
    (st0 : store) (messages : list pymsg) (out : path) (topic : option Z) :
  let k := path_str (get_temp_file_path out topic) in
  let wm := default 0 (last_saved_ids st0 !! k) in
  let st1 := save_messages st0 messages out topic in
  files st1 !! k
    = Some (default [] (files st0 !! k)
            ++ map record_of (filter (fun m => wm < msg_id m) messages)) /\
  (forall k', k' <> k -> files st1 !! k' = files st0 !! k') /\
  files (save_messages st1 messages out topic) = files st1.
Proof.
  intros k wm st1.
  destruct (save_messages_files st0 messages out topic) as [Hk Hne].
  split; [exact Hk|]. split; [exact Hne|].
  destruct (save_messages_watermark st0 messages out topic) as [_ Hw].
  unfold save_messages at 1. fold k.
  set (wm1 := default 0 (last_saved_ids st1 !! k)).
  pose proof (save_loop_fst wm1 messages wm1) as Hf.
  destruct (save_loop wm1 wm1 messages) as [recs nl] eqn:Hs. simpl in Hf.
  rewrite filter_above_nil in Hf by (intros m Hm; by apply Hw). subst recs.
  simpl. fold st1. rewrite app_nil_r.
  destruct (files st1 !! k) as [ls|] eqn:E.
  - simpl. by apply insert_id.
  - unfold st1, k in E. rewrite Hk in E. discriminate.
Qed.

Lemma load_loop_app (ls1 ls2 : list jline) :
  forall ms l, load_loop ms l (ls1 ++ ls2)
  = let '(ms', l') := load_loop ms l ls1 in load_loop ms' l' ls2.
Proof.
  induction ls1 as [|x ls1 IH]; intros ms l; simpl; [done|].
  destruct x; apply IH.
Qed.

Lemma load_loop_records (F : list pymsg) :
  forall ms l, load_loop ms l (map record_of F)
  = (ms ++ map serialize F, default l (msg_id <$> last F)).
Proof.
  induction F as [|m F IH] using rev_ind; intros ms l; simpl.
  - by rewrite app_nil_r.
  - rewrite map_app, load_loop_app, IH. simpl.
    rewrite map_app, app_assoc, last_snoc. done.
Qed.

Lemma load_loop_skip (ls1 ls2 : list jline) (x : jline) :
  x ∈ [LBlank; LInvalid; LOther] ->
  forall ms l, load_loop ms l (ls1 ++ x :: ls2) = load_loop ms l (ls1 ++ ls2).
Proof.
  intros Hx ms l. rewrite !load_loop_app.
  destruct (load_loop ms l ls1) as [ms' l'].
  repeat (apply elem_of_cons in Hx as [->|Hx]; [done|]). inversion Hx.
Qed.

Lemma flush_seq_files (out : path) (topic : option Z) (bufs : list (list pymsg)) :
  forall st0,
  let k := path_str (get_temp_file_path out topic) in
  default [] (files (fst (flush_seq st0 out topic bufs)) !! k)
    = default [] (files st0 !! k) ++ map record_of (snd (flush_seq st0 out topic bufs)) /\
  (files (fst (flush_seq st0 out topic bufs)) !! k = None ->
   files st0 !! k = None /\ snd (flush_seq st0 out topic bufs) = []).
Proof.
  induction bufs as [|b bufs IH]; intros st0 k; simpl.
  - by rewrite app_nil_r.
  - destruct (save_messages_files st0 b out topic) as [Hk _]. fold k in Hk.
    specialize (IH (save_messages st0 b out topic)). fold k in IH.
    destruct (flush_seq (save_messages st0 b out topic) out topic bufs) as [s' more] eqn:E.
    simpl in *. destruct IH as [IH1 IH2]. split.
    + rewrite IH1, Hk. simpl. by rewrite map_app, app_assoc.
    + intros Hnone. destruct (IH2 Hnone) as [Hc _]. rewrite Hk in Hc. discriminate.
Qed.

(** C2 (as the code does it): without a checkpoint file [load_messages]
    returns [([], 0)]; for a checkpoint built by any sequence of
    [save_messages] calls it returns, in file order, all the flushed
    messages together with the id recorded on the LAST flushed record
    (0 if none), not the largest id; a blank, unparseable or non-record
    line is skipped without affecting the rest of the load. *)
Theorem load_messages_replays_flushes
    (st0 : store) (out : path) (topic : option Z) (bufs : list (list pymsg)) :
  let k := path_str (get_temp_file_path out topic) in
  (files st0 !! k = None -> snd (load_messages st0 out topic) = ([], 0)) /\
  (files st0 !! k = None ->
   let '(st1, flushed) := flush_seq st0 out topic bufs in
   snd (load_messages st1 out topic) = (map serialize flushed, last_msg_id flushed)) /\
  (forall (st : store) ls1 ls2 x, x ∈ [LBlank; LInvalid; LOther] ->
   files st !! k = Some (ls1 ++ x :: ls2) ->
   snd (load_messages st out topic) = load_loop [] 0 (ls1 ++ ls2)).
Proof.
  intros k. split; [|split].
  - intros H. unfold load_messages. fold k. by rewrite H.
  - intros H. pose proof (flush_seq_files out topic bufs st0) as [H1 H2]. fold k in H1, H2.
    destruct (flush_seq st0 out topic bufs) as [st1 flushed]. simpl in *.
    unfold load_messages. fold k. rewrite H in H1. simpl in H1.
    destruct (files st1 !! k) as [ls|] eqn:E.
    + simpl in H1. subst ls. rewrite load_loop_records. simpl.
      unfold last_msg_id. by destruct (last flushed).
    + destruct (H2 eq_refl) as [_ ->]. done.
  - intros st ls1 ls2 x Hx Hf. unfold load_messages. fold k. rewrite Hf.
    rewrite (load_loop_skip ls1 ls2 x Hx).
    by destruct (load_loop [] 0 (ls1 ++ ls2)).
Qed.

(** C2 does not hold as stated: one flush of a newest-first buffer
    [10; 9] leaves a checkpoint whose load reports 9, while the largest
    flushed id is 10. *)
Lemma load_messages_reports_last_not_max :
  let st1 := save_messages empty_store [Obj (tm 10 None); Obj (tm 9 None)] chat_json None in
  snd (snd (load_messages st1 chat_json None)) = 9 /\
  max_msg_id [Obj (tm 10 None); Obj (tm 9 None)] = 10.
Proof. split; reflexivity. Qed.

Lemma load_messages_replays_flushes_witness :
  files empty_store !! path_str (get_temp_file_path chat_json None) = None /\
  snd (load_messages (fst (flush_seq empty_store chat_json None
                             [[Obj (tm 10 None); Obj (tm 9 None)]; [Obj (tm 11 None)]]))
         chat_json None)
  = (map serialize (snd (flush_seq empty_store chat_json None
                           [[Obj (tm 10 None); Obj (tm 9 None)]; [Obj (tm 11 None)]])),
     last_msg_id (snd (flush_seq empty_store chat_json None
                         [[Obj (tm 10 None); Obj (tm 9 None)]; [Obj (tm 11 None)]]))).
Proof.
  split; [reflexivity|].
  exact (proj1 (proj2 (load_messages_replays_flushes empty_store chat_json None
                          [[Obj (tm 10 None); Obj (tm 9 None)]; [Obj (tm 11 None)]])) eq_refl).
Defined.

Lemma save_messages_appends_above_watermark_witness :
  files (save_messages (save_messages ckpt_after_resume [Obj (tm 12 None); Obj (tm 5 None)]
                          chat_json None)
           [Obj (tm 12 None); Obj (tm 5 None)] chat_json None)
  = files (save_messages ckpt_after_resume [Obj (tm 12 None); Obj (tm 5 None)] chat_json None) /\
  files (save_messages ckpt_after_resume [Obj (tm 12 None); Obj (tm 5 None)] chat_json None)
    !! path_str (get_temp_file_path chat_json None)
  = Some (default [] (files ckpt_after_resume !! path_str (get_temp_file_path chat_json None))
          ++ [record_of (Obj (tm 12 None))]).
Proof.
  pose proof (save_messages_appends_above_watermark ckpt_after_resume
                [Obj (tm 12 None); Obj (tm 5 None)] chat_json None) as H.
  cbv zeta in H. destruct H as [H1 [_ H3]]. split; [exact H3|]. rewrite H1. reflexivity.
Defined.

(* ------------------------------------------------------------------ *)
(** ** The resume cursor *)

(** C1 (as the code does it): for a download without [since_id], the
    initial cursor is 0 unless partial saving to an output file is on and
    the checkpoint loads a non-empty list; then it is [max(0, last_id)],
    [last_id] being the id recorded on the last valid checkpoint record,
    and the buffer starts with the loaded messages. *)
Theorem init_session_resume_cursor (c : config) (st0 : store) (t0 : Z) (stop0 : bool) :
  since_id c = None ->
  offset_id (init_session c st0 t0 stop0) =
    match output_file c with
    | Some out =>
        if save_partial c then
          match snd (load_messages st0 out (topic_id c)) with
          | ([], _) => 0
          | (_ :: _, last_id) => Z.max 0 last_id
          end
        else 0
    | None => 0
    end /\
  all_messages (init_session c st0 t0 stop0) =
    match output_file c with
    | Some out => if save_partial c then map Dict (fst (snd (load_messages st0 out (topic_id c))))
                  else []
    | None => []
    end.
Proof.
  intros Hs. unfold init_session. rewrite Hs. simpl.
  destruct (output_file c) as [out|]; [|done].
  destruct (save_partial c); [|done].
  destruct (load_messages st0 out (topic_id c)) as [st1 [loaded last_id]].
  by destruct loaded.
Qed.

Lemma init_session_resume_cursor_witness :
  offset_id (init_session cfg_partial ckpt_after_resume 0 false) = 9.
Proof.
  destruct (init_session_resume_cursor cfg_partial ckpt_after_resume 0 false eq_refl) as [H _].
  rewrite H. reflexivity.
Defined.

(** C1 does not hold as stated: after a flush, a crash, a resume and a
    second flush, the checkpoint loads ids 10, 9, 8, 10, 9 and the cursor
    resumes at 9, not at the minimum loaded id 8; and with [since_id = 5]
    and no checkpoint the cursor starts at 5, not 0. *)
Lemma resume_cursor_not_min_loaded :
  offset_id (init_session cfg_partial ckpt_after_resume 0 false) = 9 /\
  min_loaded_id (fst (snd (load_messages ckpt_after_resume chat_json None))) = Some 8 /\
  offset_id (init_session (mkConfig 100 0 (Some chat_json) true None (Some 5) None)
               empty_store 0 false) = 5.
Proof. split; [|split]; reflexivity. Qed.

(* ------------------------------------------------------------------ *)
(** ** The cursor advance *)

Lemma fold_min_spec (xs : list Z) :
  forall x, (forall y, y ∈ x :: xs -> fold_left Z.min xs x <= y) /\
            fold_left Z.min xs x ∈ x :: xs.
Proof.
  induction xs as [|a xs IH]; intros x; simpl.
  - split; [|by left]. intros y Hy. apply list_elem_of_singleton in Hy. lia.
  - destruct (IH (Z.min x a)) as [H1 H2]. split.
    + intros y Hy. apply elem_of_cons in Hy as [->|Hy].
      * specialize (H1 (Z.min x a) ltac:(by left)). lia.
      * apply elem_of_cons in Hy as [->|Hy].
        -- specialize (H1 (Z.min x a) ltac:(by left)). lia.
        -- apply H1. by right.
    + apply elem_of_cons in H2 as [H2|H2].
      * rewrite H2. destruct (Z.min_spec x a) as [[_ ->]|[_ ->]]; [left|right; left].
      * by right; right.
Qed.

Lemma forall2_ids (h : list tmsg) (ids : list Z) :
  Forall2 (fun x y => t_id x = Some y) h ids ->
  (forall x, x ∈ h -> exists i, t_id x = Some i /\ i ∈ ids) /\
  (forall i, i ∈ ids -> exists x, x ∈ h /\ t_id x = Some i).
Proof.
  induction 1 as [|x i h ids Hx _ [IH1 IH2]]; split.
  - intros x Hx. inversion Hx.
  - intros i Hi. inversion Hi.
  - intros y Hy. apply elem_of_cons in Hy as [->|Hy].
    + exists i. split; [done|by left].
    + destruct (IH1 y Hy) as [j [Hj Hin]]. exists j. split; [done|by right].
  - intros j Hj. apply elem_of_cons in Hj as [->|Hj].
    + exists x. split; [by left|done].
    + destruct (IH2 j Hj) as [y [Hy Hyj]]. exists y. split; [by right|done].
Qed.

(** [page_min] is the minimum of the ids of the page. *)
Lemma page_min_spec (history : list tmsg) (m : Z) :
  page_min history = Some m ->
  (forall x, x ∈ history -> exists i, t_id x = Some i /\ m <= i) /\
  (exists x, x ∈ history /\ t_id x = Some m).
Proof.
  unfold page_min. destruct (mapM t_id history) as [ids|] eqn:E; [|done].
  destruct ids as [|i0 ids]; [done|]. intros Hm. injection Hm as <-.
  apply mapM_Some_1, forall2_ids in E as [E1 E2].
  destruct (fold_min_spec ids i0) as [F1 F2]. split.
  - intros x Hx. destruct (E1 x Hx) as [i [Hi Hin]]. exists i. split; [done|]. by apply F1.
  - by apply E2.
Qed.

Lemma offset_do_save (c : config) (s : sess) : offset_id (do_save c s) = offset_id s.
Proof. unfold do_save. by destruct (output_file c). Qed.

(** C4: once a non-empty page has produced new messages and the
    [until_date] test has not stopped the loop, the cursor is set to the
    minimum id over ALL messages of the page (accepted or not); when
    [since_id] is set and that cursor is [<= since_id] the loop stops, and
    it only continues with a cursor above [since_id]. *)
Theorem page_step_cursor_advance (c : config) (history : list tmsg) (now : Z) (s : sess)
    (new_messages : list tmsg) (m : Z) :
  scan c (all_messages s) history = inr new_messages ->
  new_messages <> [] ->
  ~ (is_Some (until_set c) /\ (length new_messages < length history)%nat) ->
  page_min history = Some m ->
  (forall x, x ∈ history -> exists i, t_id x = Some i /\ m <= i) /\
  (exists x, x ∈ history /\ t_id x = Some m) /\
  match page_step c history now s with
  | Break s' => offset_id s' = m
  | Next s' => offset_id s' = m /\ (forall k, since_id c = Some k -> k < m)
  | Raise _ _ => False
  end /\
  (forall k, since_id c = Some k -> m <= k ->
   page_step c history now s = Break (set_offset (set_all s (all_messages s ++ map Obj new_messages)) m)).
Proof.
  intros Hscan Hne Hu Hm.
  destruct (page_min_spec history m Hm) as [P1 P2].
  split; [exact P1|]. split; [exact P2|].
  destruct history as [|h0 hs]; [simpl in Hscan; injection Hscan as <-; done|].
  destruct new_messages as [|n0 ns]; [done|].
  assert (Hu' : (bool_decide (is_Some (until_set c))
                 && (length (n0 :: ns) <? length (h0 :: hs))%nat) = false).
  { case_bool_decide; [|done]. destruct (Nat.ltb_spec (length (n0 :: ns)) (length (h0 :: hs)));
    [|done]. exfalso. by apply Hu. }
  unfold page_step. rewrite Hscan, Hu', Hm.
  split.
  - destruct (since_id c) as [k|] eqn:Ek.
    + destruct (m <=? k) eqn:Emk; [simpl; reflexivity|]. apply Z.leb_gt in Emk.
      destruct (partial_on c && (now - _ >? save_interval));
        destruct ((total_limit c >? 0) && _);
        cbn [offset_id set_last_save set_offset set_all]; rewrite ?offset_do_save; try done;
        (split; [done|intros k' Hk'; injection Hk' as <-; lia]).
    + destruct (partial_on c && (now - _ >? save_interval));
        destruct ((total_limit c >? 0) && _);
        cbn [offset_id set_last_save set_offset set_all]; rewrite ?offset_do_save; try done;
        by split.
  - intros k Hk Hle. rewrite Hk. apply Z.leb_le in Hle. by rewrite Hle.
Qed.

Lemma page_step_cursor_advance_witness :
  match page_step (mkConfig 2 0 None true None (Some 8) None) [tm 10 None; tm 9 None] 0
          (init_session (mkConfig 2 0 None true None (Some 8) None) empty_store 0 false) with
  | Break s' => offset_id s' = 9
  | Next s' => offset_id s' = 9 /\
               (forall k, since_id (mkConfig 2 0 None true None (Some 8) None) = Some k -> k < 9)
  | Raise _ _ => False
  end.
Proof.
  destruct (page_step_cursor_advance (mkConfig 2 0 None true None (Some 8) None)
              [tm 10 None; tm 9 None] 0
              (init_session (mkConfig 2 0 None true None (Some 8) None) empty_store 0 false)
              [tm 10 None; tm 9 None] 9 eq_refl ltac:(discriminate)
              ltac:(intros [[u Hu] _]; discriminate Hu) eq_refl) as [_ [_ [H _]]].
  exact H.
Defined.

(* ------------------------------------------------------------------ *)
(** ** The [until_date] boundary *)

(** C5 (as the code does it): with a non-empty [until_date] that parses to
    [D], every message the page loop accepts that carries a date has a
    calendar date [>= D]; and a message with an id, not already in the
    buffer, dated strictly before [D] ends the page: nothing after it is
    examined or accepted. *)
Theorem scan_until_date (c : config) (u : string) (D : date) (all : list pymsg) :
  until_set c = Some u -> strptime_ymd u = Some D ->
  (forall history new_messages, scan c all history = inr new_messages ->
   forall x, x ∈ new_messages -> forall d, t_date x = Some d -> date_lt d D = false) /\
  (forall pre x post mid d,
   t_id x = Some mid -> already_fetched all mid = false ->
   t_date x = Some d -> date_lt d D = true ->
   scan c all (pre ++ x :: post) = scan c all pre).
Proof.
  intros Hu Hp. split.
  - induction history as [|msg rest IH]; intros new Hs x Hx d Hd; simpl in Hs.
    + injection Hs as <-. inversion Hx.
    + destruct (t_id msg) as [mid|]; [|by eapply IH].
      destruct (already_fetched all mid); [by eapply IH|].
      rewrite Hu in Hs.
      destruct (scan c all rest) as [e|acc] eqn:Er.
      * destruct (t_date msg) as [dm|]; [|discriminate].
        rewrite Hp in Hs. destruct (date_lt dm D); [|discriminate].
        injection Hs as <-. inversion Hx.
      * assert (Hacc : forall y, y ∈ acc -> forall d', t_date y = Some d' -> date_lt d' D = false)
          by (intros; by eapply IH).
        destruct (t_date msg) as [dm|] eqn:Edm.
        -- rewrite Hp in Hs. destruct (date_lt dm D) eqn:Elt.
           ++ injection Hs as <-. inversion Hx.
           ++ injection Hs as <-. destruct (match since_id c with Some k => mid >? k | None => true end).
              ** apply elem_of_cons in Hx as [->|Hx]; [congruence|]. by eapply Hacc.
              ** by eapply Hacc.
        -- injection Hs as <-. destruct (match since_id c with Some k => mid >? k | None => true end).
           ** apply elem_of_cons in Hx as [->|Hx]; [congruence|]. by eapply Hacc.
           ** by eapply Hacc.
  - intros pre x post mid d Hid Hnf Hd Hlt.
    induction pre as [|y pre IH]; simpl.
    + rewrite Hid, Hnf, Hu, Hd, Hp, Hlt. done.
    + rewrite IH. done.
Qed.

Lemma scan_until_date_witness :
  scan (mkConfig 100 0 None true (Some "2024-05-10") None None) []
       ([tm 12 (Some (mkDate 2024 5 12))] ++ tm 11 (Some (mkDate 2024 5 9))
          :: [tm 10 (Some (mkDate 2024 5 20))])
  = scan (mkConfig 100 0 None true (Some "2024-05-10") None None) []
       [tm 12 (Some (mkDate 2024 5 12))].
Proof.
  destruct (scan_until_date (mkConfig 100 0 None true (Some "2024-05-10") None None)
              "2024-05-10" (mkDate 2024 5 10) [] eq_refl eq_refl) as [_ H].
  exact (H [tm 12 (Some (mkDate 2024 5 12))] (tm 11 (Some (mkDate 2024 5 9)))
           [tm 10 (Some (mkDate 2024 5 20))] 11 (mkDate 2024 5 9)
           eq_refl eq_refl eq_refl eq_refl).
Defined.

(** C5 does not hold as stated: with [until_date = "2024-05-10"] a message
    without a date is accepted, and a message dated before the boundary
    that is already in the buffer does not stop the page, so a later
    message of the page is still accepted. *)
Lemma until_date_accepts_undated_and_skips_buffered :
  scan (mkConfig 100 0 None true (Some "2024-05-10") None None) []
       [mkT (Some 1) None ""] = inr [mkT (Some 1) None ""] /\
  scan (mkConfig 100 0 None true (Some "2024-05-10") None None)
       [Obj (tm 5 (Some (mkDate 2024 5 1)))]
       [tm 5 (Some (mkDate 2024 5 1)); tm 4 (Some (mkDate 2024 5 20))]
  = inr [tm 4 (Some (mkDate 2024 5 20))].
Proof. split; reflexivity. Qed.

(* ------------------------------------------------------------------ *)
(** ** Messages added by the fetch loop *)

Lemma scan_has_id (c : config) (all : list pymsg) (history : list tmsg) :
  forall new_messages, scan c all history = inr new_messages ->
  Forall (fun t => is_Some (t_id t)) new_messages.
Proof.
  induction history as [|msg rest IH]; intros new Hs; simpl in Hs.
  - by injection Hs as <-.
  - destruct (t_id msg) as [mid|] eqn:Emid; [|by apply IH].
    destruct (already_fetched all mid); [by apply IH|].
    assert (Hc : forall r, (match scan c all rest with
                            | inl e => inl e
                            | inr acc => inr (if match since_id c with
                                                 | Some k => mid >? k | None => true end
                                              then msg :: acc else acc)
                            end) = inr r -> Forall (fun t => is_Some (t_id t)) r).
    { intros r Hr. destruct (scan c all rest) as [e|acc]; [discriminate|].
      injection Hr as <-. specialize (IH acc eq_refl).
      destruct (match since_id c with Some k => mid >? k | None => true end); [|done].
      constructor; [by rewrite Emid|done]. }
    destruct (until_set c) as [u|]; [|by apply Hc].
    destruct (t_date msg) as [d|]; [|by apply Hc].
    destruct (strptime_ymd u) as [D|]; [|discriminate].
    destruct (date_lt d D); [by injection Hs as <-|by apply Hc].
Qed.

Lemma all_do_save (c : config) (s : sess) : all_messages (do_save c s) = all_messages s.
Proof. unfold do_save. by destruct (output_file c). Qed.

Lemma page_step_all (c : config) (history : list tmsg) (now : Z) (s s' : sess) :
  (page_step c history now s = Break s' \/ page_step c history now s = Next s') ->
  exists fresh, Forall (fun t => is_Some (t_id t)) fresh /\
    all_messages s' = all_messages s ++ map Obj fresh.
Proof.
  unfold page_step. destruct history as [|h0 hs].
  - intros [H|H]; [injection H as <-; exists []; by rewrite app_nil_r|discriminate].
  - destruct (scan c (all_messages s) (h0 :: hs)) as [e|new] eqn:Es;
      [intros [H|H]; discriminate|].
    pose proof (scan_has_id c (all_messages s) (h0 :: hs) new Es) as Hid.
    intros H. exists new. split; [done|].
    destruct new as [|n0 ns]; [destruct H as [H|H]; [by injection H as <-|discriminate]|].
    destruct (_ && _)%bool; [destruct H as [H|H]; [by injection H as <-|discriminate]|].
    destruct (page_min (h0 :: hs)) as [m|]; [|destruct H; discriminate].
    destruct (match since_id c with Some k => m <=? k | None => false end);
      [destruct H as [H|H]; [by injection H as <-|discriminate]|].
    destruct (partial_on c && (now - _ >? save_interval));
      destruct ((total_limit c >? 0) && _);
      destruct H as [H|H]; (discriminate || injection H as <-);
      cbn [all_messages set_last_save set_offset set_all]; rewrite ?all_do_save; done.
Qed.

Lemma fetch_loop_all (c : config) (inputs : list input) :
  forall s s', fetch_loop c inputs s = LDone s' ->
  exists fresh, Forall (fun t => is_Some (t_id t)) fresh /\
    all_messages s' = all_messages s ++ map Obj fresh.
Proof.
  induction inputs as [|i rest IH]; intros s s' H; simpl in H.
  - destruct (stop_requested s); [injection H as <-; exists []; by rewrite app_nil_r|discriminate].
  - destruct (stop_requested s); [injection H as <-; exists []; by rewrite app_nil_r|].
    destruct i as [|r now]; [injection H as <-; exists []; by rewrite app_nil_r|].
    destruct r as [history|seconds|code].
    + destruct (page_step c history now _) as [s1|e s1|s1] eqn:Ep; [| discriminate |].
      * injection H as <-. destruct (page_step_all c history now _ s1 (or_introl Ep))
          as [fresh [Hf Ha]]. exists fresh. split; [done|]. by rewrite Ha.
      * destruct (IH s1 s' H) as [f2 [Hf2 Ha2]].
        destruct (page_step_all c history now _ s1 (or_intror Ep)) as [f1 [Hf1 Ha1]].
        exists (f1 ++ f2). split; [by apply Forall_app|].
        rewrite Ha2, Ha1. cbn [all_messages add_event]. by rewrite map_app, app_assoc.
    + apply IH in H as [fresh [Hf Ha]]. exists fresh. split; [done|].
      rewrite Ha. destruct (partial_on c && _); cbn [all_messages add_event];
        rewrite ?all_do_save; done.
    + discriminate.
Qed.

Lemma init_session_dicts (c : config) (st0 : store) (t0 : Z) (stop0 : bool) :
  forall t, Obj t ∉ all_messages (init_session c st0 t0 stop0).
Proof.
  intros t. unfold init_session.
  destruct (output_file c) as [out|]; [|by inversion 1].
  destruct (save_partial c); [|by inversion 1].
  destruct (load_messages st0 out (topic_id c)) as [st1 [loaded last_id]].
  destruct loaded as [|l0 ls]; [by inversion 1|]. cbn [all_messages].
  intros Hin. apply list_elem_of_In, in_map_iff in Hin as [d [Hd _]]. discriminate.
Qed.

(** C10: the page loop only accepts messages that have an id; so when
    [download_chat_by_topic] returns, its list is a prefix of the loaded
    checkpoint dicts followed by fetched messages that all carry an id, and
    every fetched (Telethon) message in it has an id. *)
Theorem fetched_messages_have_ids (c : config) (st0 : store) (t0 : Z) (stop0 : bool)
    (inputs : list input) (res : list pymsg) (s' : sess) :
  download_chat_by_topic c st0 t0 stop0 inputs = (Returned res, s') ->
  (forall all history new_messages, scan c all history = inr new_messages ->
   Forall (fun t => is_Some (t_id t)) new_messages) /\
  (exists fresh, Forall (fun t => is_Some (t_id t)) fresh /\
     res `prefix_of` all_messages (init_session c st0 t0 stop0) ++ map Obj fresh) /\
  (forall t, Obj t ∈ res -> is_Some (t_id t)).
Proof.
  intros H. assert (Hscan := scan_has_id c). split; [intros; by eapply Hscan|].
  unfold download_chat_by_topic in H.
  destruct (fetch_loop c inputs (init_session c st0 t0 stop0)) as [s1|e s1|s1] eqn:El;
    [|discriminate|discriminate].
  destruct (fetch_loop_all c inputs _ s1 El) as [fresh [Hf Ha]].
  assert (Hpre : res `prefix_of` all_messages (init_session c st0 t0 stop0) ++ map Obj fresh).
  { injection H as <- _. rewrite <- Ha.
    destruct (partial_on c && _); rewrite ?all_do_save;
      (destruct (_ && _); [apply prefix_take|done]). }
  split; [by exists fresh|].
  intros t Ht. destruct Hpre as [rest Hr].
  assert (Hin : Obj t ∈ all_messages (init_session c st0 t0 stop0) ++ map Obj fresh)
    by (rewrite Hr; apply elem_of_app; by left).
  apply elem_of_app in Hin as [Hin|Hin]; [by apply init_session_dicts in Hin|].
  apply list_elem_of_In, in_map_iff in Hin as [t' [Ht' Hin']]. injection Ht' as ->.
  rewrite Forall_forall in Hf. by apply Hf, list_elem_of_In.
Qed.

Lemma fetched_messages_have_ids_witness :
  is_Some (t_id (tm 10 None)) /\ is_Some (t_id (tm 9 None)).
Proof.
  destruct (fetched_messages_have_ids
              (mkConfig 100 0 (Some chat_json) true (Some "2000-01-01") None None)
              empty_store 0 false
              [IResp (RPage [tm 10 None; mkT None None ""; tm 9 None]) 1]
              [Obj (tm 10 None); Obj (tm 9 None)]
              (snd (download_chat_by_topic
                      (mkConfig 100 0 (Some chat_json) true (Some "2000-01-01") None None)
                      empty_store 0 false
                      [IResp (RPage [tm 10 None; mkT None None ""; tm 9 None]) 1]))
              ltac:(vm_compute; reflexivity)) as [_ [_ H]].
  split; apply H; [left | right; left].
Defined.

(* ------------------------------------------------------------------ *)
(** ** Flood waits *)

(** C7 (as the code does it): on a [FloodWaitError] of [seconds] the loop
    flushes the buffer when partial saving to an output file is on and the
    buffer is non-empty, sleeps [seconds + 1], and goes back to the top of
    the loop with the cursor, buffer and stop flag unchanged, where it
    first polls the stop request (ending the session if one is observed)
    and otherwise requests the same page again; any number of consecutive
    flood waits is absorbed this way, while any other transport error is
    raised at once. *)
Theorem flood_wait_then_retry (c : config) (seconds now : Z) (rest : list input) (s : sess) :
  stop_requested s = false ->
  let saves := partial_on c && negb (bool_decide (all_messages s = [])) in
  (exists s2,
    fetch_loop c (IResp (RFlood seconds) now :: rest) s = fetch_loop c rest s2 /\
    offset_id s2 = offset_id s /\ all_messages s2 = all_messages s /\
    stop_requested s2 = false /\
    st s2 = (if saves then st (do_save c s) else st s) /\
    trace s2 = trace s ++ [EFetch (offset_id s) (request_limit c) (default 0 (since_id c))]
               ++ (if saves then [ESave (all_messages s)] else [])
               ++ [ESleep (seconds + 1)] /\
    (forall rest', fetch_loop c (IStop :: rest') s2 = LDone (set_stop s2))) /\
  (forall n, exists sn,
    fetch_loop c (repeat (IResp (RFlood seconds) now) n ++ rest) s = fetch_loop c rest sn /\
    offset_id sn = offset_id s /\ all_messages sn = all_messages s /\
    stop_requested sn = false) /\
  (forall code, fetch_loop c (IResp (RFail code) now :: rest) s
     = LRaise (RPCError code)
         (add_event s (EFetch (offset_id s) (request_limit c) (default 0 (since_id c))))).
Proof.
  intros Hstop saves.
  assert (Hone : forall s0, stop_requested s0 = false -> forall rest0,
    exists s2, fetch_loop c (IResp (RFlood seconds) now :: rest0) s0 = fetch_loop c rest0 s2 /\
    offset_id s2 = offset_id s0 /\ all_messages s2 = all_messages s0 /\
    stop_requested s2 = false /\
    st s2 = (if partial_on c && negb (bool_decide (all_messages s0 = []))
             then st (do_save c s0) else st s0) /\
    trace s2 = trace s0 ++ [EFetch (offset_id s0) (request_limit c) (default 0 (since_id c))]
               ++ (if partial_on c && negb (bool_decide (all_messages s0 = []))
                   then [ESave (all_messages s0)] else [])
               ++ [ESleep (seconds + 1)]).
  { intros s0 Hs0 rest0. cbn [fetch_loop]. rewrite Hs0. eexists. split; [reflexivity|].
    cbn [all_messages add_event].
    destruct (partial_on c && negb (bool_decide (all_messages s0 = []))) eqn:E.
    - assert (Hout : exists out, output_file c = Some out).
      { unfold partial_on in E. destruct (output_file c); [by eexists|discriminate]. }
      destruct Hout as [out Hout]. unfold do_save. rewrite Hout.
      cbn [offset_id all_messages stop_requested st trace add_event].
      rewrite <- !app_assoc. repeat split; done.
    - cbn [offset_id all_messages stop_requested st trace add_event].
      rewrite <- !app_assoc. repeat split; done. }
  split; [|split].
  - destruct (Hone s Hstop rest) as [s2 (H1 & H2 & H3 & H4 & H5 & H6)].
    exists s2. repeat split; try done. intros rest'. simpl. by rewrite H4.
  - intros n. clear saves. revert s Hstop.
    induction n as [|n IHn]; intros s0 Hs0; [by exists s0|].
    cbn [repeat app]. destruct (Hone s0 Hs0 (repeat (IResp (RFlood seconds) now) n ++ rest))
      as [s2 (E2 & H2 & H3 & H4 & _)].
    destruct (IHn s2 H4) as [sn (En & G2 & G3 & G4)].
    exists sn. rewrite E2, En. repeat split; congruence.
  - intros code. cbn [fetch_loop]. by rewrite Hstop.
Qed.

Lemma flood_wait_then_retry_witness :
  exists s2,
    fetch_loop cfg_partial [IResp (RFlood 5) 1; IResp (RPage []) 2]
      (init_session cfg_partial empty_store 0 false)
    = fetch_loop cfg_partial [IResp (RPage []) 2] s2 /\
    offset_id s2 = offset_id (init_session cfg_partial empty_store 0 false).
Proof.
  destruct (flood_wait_then_retry cfg_partial 5 1 [IResp (RPage []) 2]
              (init_session cfg_partial empty_store 0 false) eq_refl)
    as [[s2 (H1 & H2 & _)] _].
  exists s2. split; [exact H1|exact H2].
Defined.

(** C7 does not hold as stated: three messages are buffered, a flood wait
    of 5 flushes them and sleeps 6, and a stop request observed at the next
    poll ends the session without retrying the page request (the only
    further effect is the final flush). *)
Lemma flood_wait_stop_ends_without_retry :
  download_chat_by_topic cfg_partial empty_store 0 false
    [IResp (RPage [tm 10 None; tm 9 None; tm 8 None]) 1; IResp (RFlood 5) 2; IStop]
  = (Returned [Obj (tm 10 None); Obj (tm 9 None); Obj (tm 8 None)],
     snd (download_chat_by_topic cfg_partial empty_store 0 false
            [IResp (RPage [tm 10 None; tm 9 None; tm 8 None]) 1; IResp (RFlood 5) 2; IStop])) /\
  trace (snd (download_chat_by_topic cfg_partial empty_store 0 false
                [IResp (RPage [tm 10 None; tm 9 None; tm 8 None]) 1; IResp (RFlood 5) 2; IStop]))
  = [EFetch 0 100 0; EFetch 8 100 0;
     ESave [Obj (tm 10 None); Obj (tm 9 None); Obj (tm 8 None)]; ESleep 6;
     ESave [Obj (tm 10 None); Obj (tm 9 None); Obj (tm 8 None)]].
Proof. split; vm_compute; reflexivity. Qed.

(* ------------------------------------------------------------------ *)
(** ** A malformed [until_date] *)

Lemma scan_value_error (c : config) (all : list pymsg) (history : list tmsg) :
  scan c all history = inl ValueError ->
  exists u, until_set c = Some u /\ strptime_ymd u = None.
Proof.
  induction history as [|msg rest IH]; simpl; [discriminate|].
  destruct (t_id msg) as [mid|]; [|exact IH].
  destruct (already_fetched all mid); [exact IH|].
  intros H.
  assert (Hc : (match scan c all rest with
                | inl e => inl e
                | inr acc => inr (if match since_id c with
                                     | Some k => mid >? k | None => true end
                                  then msg :: acc else acc)
                end) = inl ValueError -> exists u, until_set c = Some u /\ strptime_ymd u = None).
  { destruct (scan c all rest) as [e|acc]; [|discriminate]. intros He. apply IH. congruence. }
  destruct (until_set c) as [u|] eqn:Eu; [|by apply Hc].
  destruct (t_date msg) as [d|]; [|by apply Hc].
  destruct (strptime_ymd u) as [D|] eqn:Ep; [|by exists u].
  destruct (date_lt d D); [discriminate|by apply Hc].
Qed.

Lemma page_step_raise (c : config) (history : list tmsg) (now : Z) (s s' : sess) (e : pyerr) :
  page_step c history now s = Raise e s' ->
  trace s' = trace s /\
  (e = ValueError -> exists u, until_set c = Some u /\ strptime_ymd u = None).
Proof.
  unfold page_step. destruct history as [|h0 hs]; [discriminate|].
  destruct (scan c (all_messages s) (h0 :: hs)) as [e0|new] eqn:Es.
  - intros H. injection H as <- <-. split; [done|]. intros ->. by eapply scan_value_error.
  - destruct new as [|n0 ns]; [discriminate|].
    destruct (_ && _)%bool; [discriminate|].
    destruct (page_min (h0 :: hs)) as [m|];
      [|intros H; injection H as <- <-; split; [done|discriminate]].
    destruct (match since_id c with Some k => m <=? k | None => false end); [discriminate|].
    destruct (partial_on c && (now - _ >? save_interval));
      destruct ((total_limit c >? 0) && _); discriminate.
Qed.

Lemma fetch_loop_raise (c : config) (inputs : list input) :
  forall s s' e, fetch_loop c inputs s = LRaise e s' ->
  (exists o l m, EFetch o l m ∈ trace s') /\
  (e = ValueError -> exists u, until_set c = Some u /\ strptime_ymd u = None).
Proof.
  induction inputs as [|i rest IH]; intros s s' e H; simpl in H.
  - destruct (stop_requested s); discriminate.
  - destruct (stop_requested s); [discriminate|].
    destruct i as [|r now]; [discriminate|].
    destruct r as [history|seconds|code].
    + destruct (page_step c history now _) as [s1|e1 s1|s1] eqn:Ep; [discriminate| |by eapply IH].
      injection H as <- <-. apply page_step_raise in Ep as [Ht Hv].
      split; [|exact Hv]. rewrite Ht. cbn [trace add_event].
      do 3 eexists. apply elem_of_app. right. by left.
    + by eapply IH.
    + injection H as <- <-. split; [|discriminate].
      cbn [trace add_event]. do 3 eexists. apply elem_of_app. right. by left.
Qed.

Lemma scan_value_error_msg (c : config) (all : list pymsg) (history : list tmsg) :
  scan c all history = inl ValueError ->
  exists msg mid, msg ∈ history /\ t_id msg = Some mid /\
    already_fetched all mid = false /\ is_Some (t_date msg).
Proof.
  induction history as [|msg rest IH]; simpl; [discriminate|].
  assert (Hr : forall r, (match scan c all rest with
                          | inl e => inl e
                          | inr acc => inr (if r : bool then msg :: acc else acc)
                          end) = inl ValueError ->
               exists msg' mid, msg' ∈ msg :: rest /\ t_id msg' = Some mid /\
                 already_fetched all mid = false /\ is_Some (t_date msg')).
  { intros r. destruct (scan c all rest) as [e|acc] eqn:Es; [|discriminate].
    intros He. injection He as ->. destruct (IH eq_refl) as (m & mid & Hm & H).
    exists m, mid. split; [by right|exact H]. }
  destruct (t_id msg) as [mid|] eqn:Ei.
  - destruct (already_fetched all mid) eqn:Ea.
    + intros H. destruct (IH H) as (m & mid' & Hm & H'). exists m, mid'. split; [by right|exact H'].
    + destruct (until_set c) as [u|]; [|apply Hr].
      destruct (t_date msg) as [d|] eqn:Ed; [|apply Hr].
      destruct (strptime_ymd u) as [D|].
      * destruct (date_lt d D); [discriminate|apply Hr].
      * intros _. exists msg, mid. split; [by left|]. rewrite Ed. done.
  - intros H. destruct (IH H) as (m & mid' & Hm & H'). exists m, mid'. split; [by right|exact H'].
Qed.

Lemma scan_malformed_value_error (c : config) (u : string) (all : list pymsg) (history : list tmsg) :
  until_set c = Some u -> strptime_ymd u = None ->
  (exists msg mid, msg ∈ history /\ t_id msg = Some mid /\
     already_fetched all mid = false /\ is_Some (t_date msg)) ->
  scan c all history = inl ValueError.
Proof.
  intros Hu Hp. induction history as [|msg rest IH]; intros (m & mid & Hm & Hi & Ha & Hd).
  - inversion Hm.
  - simpl. apply elem_of_cons in Hm as [->|Hm].
    + rewrite Hi, Ha, Hu. destruct Hd as [d ->]. by rewrite Hp.
    + assert (IH' : scan c all rest = inl ValueError) by (apply IH; by exists m, mid).
      destruct (t_id msg) as [mid'|]; [|exact IH'].
      destruct (already_fetched all mid'); [exact IH'|].
      rewrite Hu. destruct (t_date msg); [by rewrite Hp|by rewrite IH'].
Qed.

Lemma scan_undated_same (c c' : config) (all : list pymsg) (history : list tmsg) :
  since_id c = since_id c' ->
  bool_decide (is_Some (until_set c)) = bool_decide (is_Some (until_set c')) ->
  (forall msg, msg ∈ history -> t_id msg = None \/ t_date msg = None) ->
  scan c all history = scan c' all history.
Proof.
  intros Hs Hu. induction history as [|msg rest IH]; intros Hh; simpl; [done|].
  rewrite IH by (intros m Hm; apply Hh; by right).
  destruct (t_id msg) as [mid|] eqn:Ei; [|done].
  destruct (Hh msg ltac:(by left)) as [H|Hd]; [congruence|].
  destruct (already_fetched all mid); [done|]. rewrite Hs, Hd.
  destruct (until_set c), (until_set c'); done.
Qed.

Lemma page_step_with_until (c : config) (v : string) (history : list tmsg) (now : Z) (s : sess) :
  is_Some (until_set c) -> v <> "" ->
  (forall msg, msg ∈ history -> t_id msg = None \/ t_date msg = None) ->
  page_step c history now s = page_step (with_until c v) history now s.
Proof.
  intros Hu Hv Hh.
  assert (Hb : bool_decide (is_Some (until_set c)) = bool_decide (is_Some (until_set (with_until c v)))).
  { apply bool_decide_ext. split; [intros _|done].
    unfold until_set, with_until; simpl. destruct v; [done|]. by eexists. }
  unfold page_step. rewrite (scan_undated_same c (with_until c v) _ _ eq_refl Hb Hh).
  rewrite <- Hb. reflexivity.
Qed.

Lemma fetch_loop_with_until (c : config) (v : string) (inputs : list input) :
  is_Some (until_set c) -> v <> "" ->
  (forall history now msg, IResp (RPage history) now ∈ inputs -> msg ∈ history ->
     t_id msg = None \/ t_date msg = None) ->
  forall s, fetch_loop c inputs s = fetch_loop (with_until c v) inputs s.
Proof.
  intros Hu Hv. induction inputs as [|i rest IH]; intros Hin s; simpl; [done|].
  destruct (stop_requested s); [done|].
  assert (IH' := IH (fun h n m Hm => Hin h n m ltac:(by right))).
  destruct i as [|r now]; [done|].
  destruct r as [history|seconds|code]; [|apply IH'|done].
  rewrite <- (page_step_with_until c v history now) by (done || (intros m; apply (Hin history now); by left)).
  destruct (page_step c history now _); [done|done|apply IH'].
Qed.

Lemma page_step_value_error (c : config) (history : list tmsg) (now : Z) (s s' : sess) :
  page_step c history now s = Raise ValueError s' ->
  s' = s /\ scan c (all_messages s) history = inl ValueError.
Proof.
  unfold page_step. destruct history as [|h0 hs]; [discriminate|].
  destruct (scan c (all_messages s) (h0 :: hs)) as [e0|new] eqn:Es.
  - intros H. injection H as -> <-. done.
  - destruct new as [|n0 ns]; [discriminate|].
    destruct (_ && _)%bool; [discriminate|].
    destruct (page_min (h0 :: hs)) as [m|]; [|discriminate].
    destruct (match since_id c with Some k => m <=? k | None => false end); [discriminate|].
    destruct (partial_on c && (now - _ >? save_interval));
      destruct ((total_limit c >? 0) && _); discriminate.
Qed.

Lemma fetch_loop_value_error (c : config) (inputs : list input) :
  forall s s', fetch_loop c inputs s = LRaise ValueError s' ->
  exists history now, IResp (RPage history) now ∈ inputs /\
    scan c (all_messages s') history = inl ValueError.
Proof.
  induction inputs as [|i rest IH]; intros s s' H; simpl in H.
  - destruct (stop_requested s); discriminate.
  - destruct (stop_requested s); [discriminate|].
    destruct i as [|r now]; [discriminate|].
    destruct r as [history|seconds|code].
    + destruct (page_step c history now _) as [s1|e1 s1|s1] eqn:Ep; [discriminate| |].
      * injection H as -> <-. apply page_step_value_error in Ep as [-> Hs].
        exists history, now. split; [by left|exact Hs].
      * destruct (IH _ _ H) as (h & n & Hh & Hs). exists h, n. split; [by right|exact Hs].
    + destruct (IH _ _ H) as (h & n & Hh & Hs). exists h, n. split; [by right|exact Hs].
    + discriminate.
Qed.

(** C8 (as the code does it): [until_date] is not validated before the
    loop; it is parsed only when the page loop examines a fetched message
    that has an id, is not already buffered and carries a date.  So when the
    session fails with the parse [ValueError], the configured [until_date]
    is non-empty and unparseable, at least one page request has been issued,
    and a fetched page holds such a message.  For a malformed [until_date],
    a page scan raises exactly when its page holds such a message; and when
    no fetched page holds a message with both an id and a date, the session
    runs exactly as with any other non-empty [until_date] and never reports
    the malformed value. *)
Theorem until_parse_error_after_fetch (c : config) :
  (forall st0 t0 stop0 inputs s',
     download_chat_by_topic c st0 t0 stop0 inputs = (Raised ValueError, s') ->
     (exists u, until_set c = Some u /\ strptime_ymd u = None) /\
     (exists o l m, EFetch o l m ∈ trace s') /\
     (exists history now msg mid, IResp (RPage history) now ∈ inputs /\ msg ∈ history /\
        t_id msg = Some mid /\ already_fetched (all_messages s') mid = false /\
        is_Some (t_date msg))) /\
  (forall u, until_set c = Some u -> strptime_ymd u = None ->
     (forall all history,
        scan c all history = inl ValueError <->
        exists msg mid, msg ∈ history /\ t_id msg = Some mid /\
          already_fetched all mid = false /\ is_Some (t_date msg)) /\
     (forall st0 t0 stop0 inputs v,
        (forall history now msg, IResp (RPage history) now ∈ inputs -> msg ∈ history ->
           t_id msg = None \/ t_date msg = None) ->
        v <> "" ->
        download_chat_by_topic c st0 t0 stop0 inputs
        = download_chat_by_topic (with_until c v) st0 t0 stop0 inputs /\
        fst (download_chat_by_topic c st0 t0 stop0 inputs) <> Raised ValueError)).
Proof.
  split.
  - intros st0 t0 stop0 inputs s'. unfold download_chat_by_topic.
    destruct (fetch_loop c inputs (init_session c st0 t0 stop0)) as [s1|e s1|s1] eqn:E;
      [discriminate| |discriminate].
    intros H. injection H as -> <-.
    destruct (fetch_loop_raise c inputs _ s1 ValueError E) as [H1 H2].
    split; [by apply H2|]. split; [exact H1|].
    destruct (fetch_loop_value_error c inputs _ _ E) as (h & n & Hh & Hs).
    destruct (scan_value_error_msg c _ h Hs) as (m & mid & Hm & Hrest).
    exists h, n, m, mid. split; [exact Hh|]. split; [exact Hm|exact Hrest].
  - intros u Hu Hp. split.
    + intros all history. split; [apply scan_value_error_msg|].
      apply (scan_malformed_value_error c u); done.
    + intros st0 t0 stop0 inputs v Hin Hv.
      assert (Heq : download_chat_by_topic c st0 t0 stop0 inputs
                    = download_chat_by_topic (with_until c v) st0 t0 stop0 inputs).
      { unfold download_chat_by_topic.
        change (init_session (with_until c v) st0 t0 stop0) with (init_session c st0 t0 stop0).
        rewrite <- (fetch_loop_with_until c v inputs) by (done || by rewrite Hu).
        reflexivity. }
      split; [exact Heq|]. intros Hr.
      unfold download_chat_by_topic in Hr.
      destruct (fetch_loop c inputs (init_session c st0 t0 stop0)) as [s1|e s1|s1] eqn:E;
        [by destruct (_ && _)%bool, (_ && _)%bool| |discriminate].
      simpl in Hr. injection Hr as ->.
      destruct (fetch_loop_value_error c inputs _ _ E) as (h & n & Hh & Hs).
      destruct (scan_value_error_msg c _ h Hs) as (m & mid & Hm & Hi & _ & [d Hd]).
      destruct (Hin h n m Hh Hm) as [H|H]; congruence.
Qed.

Lemma until_parse_error_after_fetch_witness :
  (exists o l m, EFetch o l m ∈
     trace (snd (download_chat_by_topic (mkConfig 100 0 None true (Some "yesterday") None None)
                   empty_store 0 false [IResp (RPage [tm 1 (Some (mkDate 2024 5 1))]) 1]))) /\
  fst (download_chat_by_topic (mkConfig 100 0 None true (Some "yesterday") None None)
         empty_store 0 false [IResp (RPage [tm 2 None; tm 1 None]) 1; IStop])
  <> Raised ValueError.
Proof.
  destruct (until_parse_error_after_fetch (mkConfig 100 0 None true (Some "yesterday") None None))
    as [HB HC].
  split.
  - destruct (HB empty_store 0 false [IResp (RPage [tm 1 (Some (mkDate 2024 5 1))]) 1]
                (snd (download_chat_by_topic (mkConfig 100 0 None true (Some "yesterday") None None)
                        empty_store 0 false [IResp (RPage [tm 1 (Some (mkDate 2024 5 1))]) 1]))
                ltac:(vm_compute; reflexivity)) as (_ & H & _).
    exact H.
  - destruct (HC "yesterday" eq_refl ltac:(vm_compute; reflexivity)) as [_ H].
    refine (proj2 (H empty_store 0 false [IResp (RPage [tm 2 None; tm 1 None]) 1; IStop]
                     "2024-01-01" _ ltac:(discriminate))).
    intros h n m Hh Hm. right.
    apply elem_of_cons in Hh as [Hh|Hh]; [|apply list_elem_of_singleton in Hh; discriminate].
    injection Hh as -> _. apply elem_of_cons in Hm as [->|Hm]; [reflexivity|].
    apply list_elem_of_singleton in Hm as ->. reflexivity.
Defined.

(** C8 does not hold as stated: with [until_date = "yesterday"] the session
    issues a page request and only then fails; with an empty first page it
    finishes normally and never reports the malformed value. *)
Lemma malformed_until_not_fail_fast :
  download_chat_by_topic (mkConfig 100 0 None true (Some "yesterday") None None)
    empty_store 0 false [IResp (RPage [tm 1 (Some (mkDate 2024 5 1))]) 1]
  = (Raised ValueError,
     snd (download_chat_by_topic (mkConfig 100 0 None true (Some "yesterday") None None)
            empty_store 0 false [IResp (RPage [tm 1 (Some (mkDate 2024 5 1))]) 1])) /\
  trace (snd (download_chat_by_topic (mkConfig 100 0 None true (Some "yesterday") None None)
                empty_store 0 false [IResp (RPage [tm 1 (Some (mkDate 2024 5 1))]) 1]))
  = [EFetch 0 100 0] /\
  fst (download_chat_by_topic (mkConfig 100 0 None true (Some "yesterday") None None)
         empty_store 0 false [IResp (RPage []) 1]) = Returned [].
Proof. split; [|split]; vm_compute; reflexivity. Qed.

(* ------------------------------------------------------------------ *)
(** ** [from_date] *)

(** C6 (as the code does it): when [--from] is given, [process_chat_download]
    puts a [from_date] keyword into [download_kwargs] whenever that dict is
    built at all, and [download_chat] has no such parameter, so the call
    raises [TypeError] before any message is returned.  Independently, the
    page scan of the fetch loop has no upper date bound: without
    [until_date] and [since_id], a fresh message with an id is accepted
    whatever its date. *)
Theorem from_date_kwarg_rejected (a : cli_args) (since : option Z) (today : string)
    (keys : list string) :
  truthy (a_from_date a) = true ->
  download_kwargs_keys a since today = inr keys ->
  call_kwargs download_chat_params keys = CallTypeError "from_date" /\
  (forall c all msg mid,
     until_set c = None -> since_id c = None ->
     t_id msg = Some mid -> already_fetched all mid = false ->
     scan c all [msg] = inr [msg]).
Proof.
  intros Hf Hk. split.
  - unfold download_kwargs_keys in Hk. rewrite Hf in Hk.
    destruct (a_last_days a) as [n|].
    + destruct (strptime_ymd _); [|discriminate].
      injection Hk as <-. destruct since; vm_compute; reflexivity.
    + injection Hk as <-. destruct (truthy (a_until a)), since; vm_compute; reflexivity.
  - intros c all msg mid Hu Hs Hi Ha. simpl. rewrite Hi, Ha, Hu, Hs. reflexivity.
Qed.

Lemma from_date_kwarg_rejected_witness :
  call_kwargs download_chat_params
    ["chat_id"; "request_limit"; "total_limit"; "output_file"; "silent";
     "save_partial"; "from_date"] = CallTypeError "from_date".
Proof.
  destruct (from_date_kwarg_rejected (mkArgs None None (Some "2024-05-01")) None "2026-10-16"
              ["chat_id"; "request_limit"; "total_limit"; "output_file"; "silent";
               "save_partial"; "from_date"] eq_refl ltac:(vm_compute; reflexivity)) as [H _].
  exact H.
Defined.

(* ================================================================== *)
(** * Further properties of the code *)

(* ------------------------------------------------------------------ *)
(** ** The fetch loop *)

(** With a positive [total_limit], a session that returns gives back at
    most [total_limit] messages, the first ones of its buffer. *)
Theorem download_total_limit_bound (c : config) (st0 : store) (t0 : Z) (stop0 : bool)
    (inputs : list input) (res : list pymsg) (s' : sess) :
  download_chat_by_topic c st0 t0 stop0 inputs = (Returned res, s') ->
  0 < total_limit c ->
  Z.of_nat (length res) <= total_limit c /\ res `prefix_of` all_messages s'.
Proof.
  unfold download_chat_by_topic.
  destruct (fetch_loop c inputs (init_session c st0 t0 stop0)) as [s1|e s1|s1];
    [|discriminate|discriminate].
  intros H Hpos. injection H as <- <-.
  set (s2 := if partial_on c && _ then do_save c s1 else s1).
  destruct (Z.gtb_spec (total_limit c) 0) as [_|]; [|lia]. simpl.
  destruct (Z.geb_spec (Z.of_nat (length (all_messages s2))) (total_limit c)) as [Hge|Hlt].
  - split; [|apply prefix_take].
    rewrite length_take. lia.
  - split; [lia|done].
Qed.

Lemma download_total_limit_bound_witness :
  Z.of_nat (length [Obj (tm 10 None); Obj (tm 9 None)]) <= 2.
Proof.
  destruct (download_total_limit_bound (mkConfig 2 2 None false None None None)
              empty_store 0 false
              [IResp (RPage [tm 10 None; tm 9 None]) 1; IResp (RPage [tm 8 None]) 2]
              [Obj (tm 10 None); Obj (tm 9 None)]
              (snd (download_chat_by_topic (mkConfig 2 2 None false None None None)
                      empty_store 0 false
                      [IResp (RPage [tm 10 None; tm 9 None]) 1; IResp (RPage [tm 8 None]) 2]))
              ltac:(vm_compute; reflexivity) ltac:(vm_compute; reflexivity)) as [H _].
  exact H.
Defined.

Lemma init_session_fields (c : config) (st0 : store) (t0 : Z) (stop0 : bool) :
  stop_requested (init_session c st0 t0 stop0) = stop0 /\
  trace (init_session c st0 t0 stop0) = [].
Proof.
  unfold init_session. destruct (output_file c) as [out|]; [|done].
  destruct (save_partial c); [|done].
  destruct (load_messages st0 out (topic_id c)) as [st1 [loaded last_id]].
  by destruct loaded.
Qed.

Lemma do_save_fields (c : config) (s : sess) :
  all_messages (do_save c s) = all_messages s /\
  stop_requested (do_save c s) = stop_requested s /\
  offset_id (do_save c s) = offset_id s /\
  exists evs, trace (do_save c s) = trace s ++ evs /\
              Forall (fun ev => ev = ESave (all_messages s)) evs.
Proof.
  unfold do_save. destruct (output_file c); simpl.
  - repeat split; auto. exists [ESave (all_messages s)]. split; [done|]. by repeat constructor.
  - repeat split; auto. exists []. rewrite app_nil_r. split; [done|constructor].
Qed.

Lemma stop_session_gen (c : config) (st0 : store) (t0 : Z) (inputs : list input) :
  (exists res, fst (download_chat_by_topic c st0 t0 true inputs) = Returned res /\
     res `prefix_of` all_messages (init_session c st0 t0 true)) /\
  all_messages (snd (download_chat_by_topic c st0 t0 true inputs))
    = all_messages (init_session c st0 t0 true) /\
  stop_requested (snd (download_chat_by_topic c st0 t0 true inputs)) = true /\
  Forall (fun ev => ev = ESave (all_messages (init_session c st0 t0 true)))
    (trace (snd (download_chat_by_topic c st0 t0 true inputs))).
Proof.
  destruct (init_session_fields c st0 t0 true) as [Hs Ht].
  unfold download_chat_by_topic. destruct inputs as [|i inputs]; simpl; rewrite Hs;
  (set (s0 := init_session c st0 t0 true) in *;
   set (s1 := if partial_on c && _ then do_save c s0 else s0);
   assert (Hf : all_messages s1 = all_messages s0 /\ stop_requested s1 = true /\
                Forall (fun ev => ev = ESave (all_messages s0)) (trace s1))
     by (unfold s1; destruct (partial_on c && _);
         [destruct (do_save_fields c s0) as (H1 & H2 & _ & evs & H3 & H4);
          rewrite H1, H2, H3, Ht; auto|rewrite Ht; auto]);
   destruct Hf as (H1 & H2 & H3); simpl; rewrite H1;
   (split; [|auto]); eexists; split; [reflexivity|];
   destruct ((total_limit c >? 0) && _); [apply prefix_take|done]).
Qed.



Lemma already_fetched_dicts (ds : list jdict) (all : list pymsg) (mid : Z) :
  already_fetched (map Dict ds ++ all) mid = already_fetched all mid.
Proof.
  unfold already_fetched. rewrite existsb_app.
  induction ds as [|d ds IH]; simpl; [done|]. exact IH.
Qed.

(** The duplicate test of the fetch loop looks at the [id] attribute only,
    which the dicts resumed from the checkpoint do not have: a page is
    scanned exactly as if they were not in the buffer, so a fetched
    message carrying the id of a resumed record is accepted again. *)
Theorem checkpoint_dicts_not_duplicates (c : config) (ds : list jdict) (all : list pymsg)
    (history : list tmsg) :
  scan c (map Dict ds ++ all) history = scan c all history.
Proof.
  induction history as [|msg rest IH]; cbn [scan]; [done|].
  destruct (t_id msg); [|exact IH].
  rewrite already_fetched_dicts, IH. done.
Qed.

(** What [scan] accepts from a page. *)
Lemma scan_accepted_gen (c : config) (all : list pymsg) (history new : list tmsg) :
  scan c all history = inr new ->
  new `sublist_of` history /\
  Forall (fun m => exists i, t_id m = Some i /\ already_fetched all i = false /\
                    match since_id c with Some k => k < i | None => True end) new.
Proof.
  revert new. induction history as [|msg rest IH]; intros new; simpl.
  - intros H. injection H as <-. split; constructor.
  - destruct (t_id msg) as [mid|] eqn:Ei.
    2:{ intros H. destruct (IH new H). split; [by apply sublist_cons|done]. }
    destruct (already_fetched all mid) eqn:Ea.
    { intros H. destruct (IH new H). split; [by apply sublist_cons|done]. }
    assert (Hc : forall new', (match scan c all rest with
                  | inl e => inl e
                  | inr acc => inr (if match since_id c with
                                       | Some k => mid >? k | None => true end
                                    then msg :: acc else acc)
                  end) = inr new' ->
                 new' `sublist_of` msg :: rest /\
                 Forall (fun m => exists i, t_id m = Some i /\ already_fetched all i = false /\
                    match since_id c with Some k => k < i | None => True end) new').
    { intros new' H. destruct (scan c all rest) as [e|acc]; [discriminate|].
      injection H as <-. destruct (IH acc eq_refl) as [Hs Hf].
      destruct (since_id c) as [k|] eqn:Ek.
      - destruct (Z.gtb_spec mid k).
        + split; [by apply sublist_skip|]. constructor; [|done].
          exists mid. split; [done|]. split; [done|]. lia.
        + split; [by apply sublist_cons|done].
      - split; [by apply sublist_skip|]. constructor; [|done].
        exists mid. auto. }
    destruct (until_set c) as [u|]; [|apply Hc].
    destruct (t_date msg) as [d|]; [|apply Hc].
    destruct (strptime_ymd u) as [D|]; [|intros H; discriminate H].
    destruct (date_lt d D); [|apply Hc].
    intros H. injection H as <-. split; [apply sublist_nil_l|constructor].
Qed.

(** The messages a page contributes form a subsequence of the page; each
    has an id, is not already in the buffer (by attribute id), and exceeds
    [since_id] when that is set. *)
Theorem scan_accepted (c : config) (all : list pymsg) (history new : list tmsg) :
  scan c all history = inr new ->
  new `sublist_of` history /\
  Forall (fun m => exists i, t_id m = Some i /\ already_fetched all i = false /\
                    match since_id c with Some k => k < i | None => True end) new.
Proof. apply scan_accepted_gen. Qed.

Lemma scan_accepted_witness :
  [tm 10 None; tm 9 None] `sublist_of` [tm 10 None; tm 9 None; tm 8 None].
Proof.
  destruct (scan_accepted (mkConfig 100 0 None false None (Some 8) None) []
              [tm 10 None; tm 9 None; tm 8 None] [tm 10 None; tm 9 None]
              ltac:(vm_compute; reflexivity)) as [H _].
  exact H.
Defined.

(** The page requests a session makes.  [good_event c ev]: a page request
    uses [limit = request_limit] and [min_id = since_id or 0], and with
    [since_id = k] its [offset_id] is at least [k]. *)
Definition good_event (c : config) (ev : event) : Prop :=
  match ev with
  | EFetch o l m => l = request_limit c /\ m = default 0 (since_id c) /\
                    (forall k, since_id c = Some k -> k <= o)
  | _ => True
  end.

Lemma page_step_good (c : config) (history : list tmsg) (now : Z) (s : sess) :
  Forall (good_event c) (trace s) ->
  match page_step c history now s with
  | Break s' | Raise _ s' => Forall (good_event c) (trace s')
  | Next s' => Forall (good_event c) (trace s') /\
               (forall k, since_id c = Some k -> k < offset_id s')
  end.
Proof.
  intros Hg. unfold page_step. destruct history as [|h0 hs]; [done|].
  destruct (scan c (all_messages s) (h0 :: hs)) as [e0|new]; [done|].
  destruct new as [|n0 ns]; [done|].
  destruct (_ && _)%bool; [done|].
  destruct (page_min (h0 :: hs)) as [m|]; [|done].
  assert (Hs3 : forall (s2 : sess) (b : bool), trace s2 = trace s -> offset_id s2 = m ->
     Forall (good_event c) (trace (if b then set_last_save (do_save c s2) now else s2)) /\
     offset_id (if b then set_last_save (do_save c s2) now else s2) = m).
  { intros s2 b Ht2 Ho2. destruct (do_save_fields c s2) as (_ & _ & Ho & evs & Ht & Hevs).
    destruct b; cbn [trace offset_id set_last_save].
    - rewrite Ht, Forall_app, Ht2. split; [split; [exact Hg|]|congruence].
      eapply Forall_impl; [exact Hevs|]. intros ev ->. done.
    - rewrite Ht2. split; [exact Hg|exact Ho2]. }
  match goal with |- context [if ?b then set_last_save (do_save c ?s2) now else ?s2] =>
    destruct (Hs3 s2 b eq_refl eq_refl) as [H1 H2];
    set (s3 := if b then set_last_save (do_save c s2) now else s2) in *
  end.
  destruct (since_id c) as [k|] eqn:Ek.
  - destruct (Z.leb_spec m k) as [Hle|Hgt]; [done|].
    destruct ((total_limit c >? 0) && _); [exact H1|].
    split; [exact H1|intros k' Hk'; injection Hk' as <-; lia].
  - destruct ((total_limit c >? 0) && _); [exact H1|].
    split; [exact H1|discriminate].
Qed.

Lemma fetch_loop_good (c : config) (inputs : list input) :
  forall s, Forall (good_event c) (trace s) ->
  (forall k, since_id c = Some k -> k <= offset_id s) ->
  match fetch_loop c inputs s with
  | LDone s' | LRaise _ s' | LPending s' => Forall (good_event c) (trace s')
  end.
Proof.
  induction inputs as [|i rest IH]; intros s Hg Ho; simpl.
  - by destruct (stop_requested s).
  - destruct (stop_requested s); [done|].
    destruct i as [|r now]; [done|].
    set (s1 := add_event s _).
    assert (Hg1 : Forall (good_event c) (trace s1)).
    { unfold s1. cbn [trace add_event]. rewrite Forall_app. split; [done|].
      constructor; [|constructor]. simpl. auto. }
    assert (Ho1 : offset_id s1 = offset_id s) by done.
    destruct r as [history|seconds|code]; [| |done].
    + pose proof (page_step_good c history now s1 Hg1) as Hp.
      destruct (page_step c history now s1) as [s'|e s'|s']; [done|done|].
      destruct Hp as [Hp1 Hp2]. apply IH; [done|]. intros k Hk. specialize (Hp2 k Hk). lia.
    + apply IH.
      * cbn [trace add_event]. rewrite Forall_app. split; [|constructor; constructor].
        destruct (partial_on c && _); [|done].
        destruct (do_save_fields c s1) as (_ & _ & _ & evs & Ht & Hevs).
        rewrite Ht, Forall_app. split; [done|].
        eapply Forall_impl; [exact Hevs|]. intros ev ->. done.
      * intros k Hk. cbn [offset_id add_event].
        destruct (partial_on c && _); [|rewrite Ho1; by apply Ho].
        destruct (do_save_fields c s1) as (_ & _ & Hoff & _).
        rewrite Hoff, Ho1. by apply Ho.
Qed.

Lemma init_session_offset (c : config) (st0 : store) (t0 : Z) (stop0 : bool) (k : Z) :
  since_id c = Some k -> k <= offset_id (init_session c st0 t0 stop0).
Proof.
  intros Hk. unfold init_session. rewrite Hk. simpl.
  destruct (output_file c) as [out|]; [|simpl; lia].
  destruct (save_partial c); [|simpl; lia].
  destruct (load_messages st0 out (topic_id c)) as [st1 [loaded last_id]].
  destruct loaded; simpl; lia.
Qed.

(** Every page request of a session asks for [request_limit] messages
    with [min_id = since_id or 0]; with [since_id = k] its [offset_id] is
    never below [k]. *)
Theorem page_requests_well_formed (c : config) (st0 : store) (t0 : Z) (stop0 : bool)
    (inputs : list input) :
  Forall (good_event c) (trace (snd (download_chat_by_topic c st0 t0 stop0 inputs))).
Proof.
  destruct (init_session_fields c st0 t0 stop0) as [_ Ht].
  pose proof (fetch_loop_good c inputs (init_session c st0 t0 stop0)
                ltac:(rewrite Ht; constructor) (init_session_offset c st0 t0 stop0)) as Hl.
  unfold download_chat_by_topic.
  destruct (fetch_loop c inputs (init_session c st0 t0 stop0)) as [s|e s|s]; [|done|done].
  simpl. destruct (partial_on c && _); [|done].
  destruct (do_save_fields c s) as (_ & _ & _ & evs & Ht' & Hevs).
  rewrite Ht', Forall_app. split; [done|].
  eapply Forall_impl; [exact Hevs|]. intros ev ->. done.
Qed.

(* ------------------------------------------------------------------ *)
(** ** Deduplication and the resume step *)

Lemma dedup_go_disjoint (S T : gset Z) (l : list pymsg) :
  (forall i, i ∈ ids_of l -> i ∉ S) -> dedup_go (S ∪ T) l = dedup_go T l.
Proof.
  revert T. unfold ids_of. induction l as [|m l IH]; intros T Hd; simpl; [done|].
  simpl in Hd. destruct (py_id m) as [mid|] eqn:E.
  - assert (HmS : mid ∉ S) by (apply Hd; by left).
    assert (Hr : forall i, i ∈ omap py_id l -> i ∉ S) by (intros i Hi; apply Hd; by right).
    case_decide as H1; case_decide as H2.
    + by apply IH.
    + set_solver.
    + set_solver.
    + f_equal. rewrite <- (IH ({[mid]} ∪ T) Hr). f_equal. set_solver.
  - f_equal. by apply IH.
Qed.

Lemma dedup_go_id (T : gset Z) (l : list pymsg) :
  NoDup (ids_of l) -> (forall i, i ∈ ids_of l -> i ∉ T) -> dedup_go T l = l.
Proof.
  revert T. unfold ids_of. induction l as [|m l IH]; intros T Hnd Hd; simpl; [done|].
  simpl in Hnd, Hd. destruct (py_id m) as [mid|] eqn:E.
  - apply NoDup_cons in Hnd as [Hnin Hnd].
    case_decide as H1; [exfalso; apply (Hd mid); [by left|done]|].
    f_equal. apply IH; [done|]. intros i Hi. apply not_elem_of_union. split.
    + apply not_elem_of_singleton. intros ->. contradiction.
    + apply Hd. by right.
  - f_equal. by apply IH.
Qed.

Lemma dedup_go_sublist (seen : gset Z) (l : list pymsg) : dedup_go seen l `sublist_of` l.
Proof.
  revert seen. induction l as [|m l IH]; intros seen; simpl; [done|].
  destruct (py_id m); [case_decide|].
  - by apply sublist_cons.
  - by apply sublist_skip.
  - by apply sublist_skip.
Qed.

(** [_dedup_messages] keeps a subsequence of its input and is idempotent:
    deduplicating an already deduplicated list changes nothing. *)
Theorem dedup_messages_idempotent (l : list pymsg) :
  _dedup_messages (_dedup_messages l) = _dedup_messages l /\
  _dedup_messages l `sublist_of` l.
Proof.
  split; [|apply dedup_go_sublist].
  destruct (dedup_go_nodup ∅ l) as [Hnd _].
  unfold _dedup_messages. apply dedup_go_id; [done|set_solver].
Qed.

Lemma fold_max_spec (xs : list Z) (x : Z) :
  x <= fold_left Z.max xs x /\ forall y, y ∈ xs -> y <= fold_left Z.max xs x.
Proof.
  revert x. induction xs as [|y ys IH]; intros x; simpl.
  - split; [lia|]. intros y Hy. inversion Hy.
  - destruct (IH (Z.max x y)) as [H1 H2]. split; [lia|].
    intros z Hz. apply elem_of_cons in Hz as [->|Hz]; [lia|]. by apply H2.
Qed.

(** The resume step of [process_chat_download] (lines 247-266): with
    [--overwrite] or an explicit [--since-id] nothing is loaded and
    [since_id] is kept; otherwise only a JSON list is loaded, and the
    resumed [since_id] is the largest id of the loaded messages, or [None]
    when none of them has an id. *)
Theorem resume_since_is_max_id (overwrite : bool) (since_arg : option Z) (f : json_file)
    (E : list pymsg) (since : option Z) :
  resume_state overwrite since_arg f = (E, since) ->
  (overwrite = true \/ is_Some since_arg -> E = [] /\ since = since_arg) /\
  (overwrite = false -> since_arg = None ->
     (E = [] \/ f = JsonList E) /\
     match since with
     | Some k => k ∈ ids_of E /\ forall i, i ∈ ids_of E -> i <= k
     | None => ids_of E = []
     end).
Proof.
  unfold resume_state. intros Hr. split.
  - intros [->|[k ->]]; [by injection Hr|]. destruct overwrite; by injection Hr.
  - intros -> ->. destruct f as [| |data|]; try (injection Hr as <- <-; split; [by left|done]).
    unfold ids_of. destruct (omap py_id data) as [|i0 is] eqn:Eo.
    + injection Hr as <- <-. split; [by right|done].
    + injection Hr as <- <-. split; [by right|]. rewrite Eo.
      destruct (fold_max_spec is i0) as [H1 H2].
      assert (Hin : forall xs x, fold_left Z.max xs x = x \/ fold_left Z.max xs x ∈ xs).
      { induction xs as [|y ys IH]; intros x; simpl; [by left|].
        destruct (IH (Z.max x y)) as [H|H]; [|right; by right].
        rewrite H. destruct (Z.max_spec x y) as [[_ ->]|[_ ->]]; [right; by left|by left]. }
      split.
      * destruct (Hin is i0) as [->|H]; [by left|by right].
      * intros i Hi. apply elem_of_cons in Hi as [->|Hi]; [done|by apply H2].
Qed.

Lemma resume_since_is_max_id_witness :
  ids_of [Dict (mkJ (Some 5) None ""); Dict (mkJ None None ""); Dict (mkJ (Some 9) None "")]
    = [5; 9] /\ 9 ∈ [5; 9].
Proof.
  destruct (resume_since_is_max_id false None
              (JsonList [Dict (mkJ (Some 5) None ""); Dict (mkJ None None ""); Dict (mkJ (Some 9) None "")])
              [Dict (mkJ (Some 5) None ""); Dict (mkJ None None ""); Dict (mkJ (Some 9) None "")]
              (Some 9) ltac:(vm_compute; reflexivity)) as [_ H].
  destruct (H eq_refl eq_refl) as [_ [Hk _]].
  split; [vm_compute; reflexivity|exact Hk].
Defined.

(* ------------------------------------------------------------------ *)
(** ** Checkpoint file names and watermarks *)

Lemma str_length_app (s x : string) :
  String.length (s +:+ x) = (String.length s + String.length x)%nat.
Proof. induction s as [|a s IH]; simpl; [done|]. by rewrite IH. Qed.

Lemma str_app_cons (a : ascii) (s x : string) : String a s +:+ x = String a (s +:+ x).
Proof. reflexivity. Qed.

Lemma str_app_cancel_r (x : string) :
  forall s1 s2, s1 +:+ x = s2 +:+ x -> s1 = s2.
Proof.
  induction s1 as [|a s1 IH]; intros [|b s2] H; [done| | |].
  - exfalso. apply (f_equal String.length) in H.
    rewrite !str_length_app in H. cbn [String.length] in H. lia.
  - exfalso. apply (f_equal String.length) in H.
    rewrite !str_length_app in H. cbn [String.length] in H. lia.
  - rewrite !str_app_cons in H. injection H as -> H. f_equal. by apply IH.
Qed.

Lemma str_app_assoc (a b c : string) : a +:+ (b +:+ c) = (a +:+ b) +:+ c.
Proof. induction a as [|x a IH]; [done|]. by rewrite !str_app_cons, IH. Qed.

(** [get_temp_file_path] gives the topics of one output file distinct
    checkpoint files (the main chat, [None], included); but for an output
    file with a suffix, the checkpoint of topic [t] of [chat.json] is the
    one of the main chat of [chat.t.json]: the topic id is spliced into the
    file name. *)
Theorem temp_file_per_topic (out : path) (t1 t2 : option Z) :
  (path_str (get_temp_file_path out t1) = path_str (get_temp_file_path out t2) -> t1 = t2) /\
  (p_suffix out <> "" -> forall t, path_str (get_temp_file_path out (Some t))
             = path_str (get_temp_file_path
                           (mkPath (p_stem out +:+ "." +:+ pretty t) (p_suffix out)) None)).
Proof.
  split.
  - unfold path_str, get_temp_file_path, with_suffix.
    destruct t1 as [t1|], t2 as [t2|]; cbn [p_stem p_suffix]; intros H;
      apply (inj (String.append (p_stem out))) in H; [| | |done].
    + apply (inj (String.append ".")), str_app_cancel_r in H.
      by apply (inj pretty) in H as ->.
    + exfalso. apply (f_equal String.length) in H.
      rewrite !str_length_app in H. cbn [String.length] in H. lia.
    + exfalso. apply (f_equal String.length) in H.
      rewrite !str_length_app in H. cbn [String.length] in H. lia.
  - intros _ t. unfold path_str, get_temp_file_path, with_suffix. simpl.
    by rewrite !str_app_assoc.
Qed.


Lemma save_loop_snd_eq (last : Z) (msgs : list pymsg) :
  forall nl, last <= nl -> snd (save_loop last nl msgs) = fold_left Z.max (map msg_id msgs) nl.
Proof.
  induction msgs as [|m ms IH]; intros nl Hnl; simpl; [done|].
  destruct (Z.gtb_spec (default 0 (j_id (serialize m))) last) as [H|H].
  - match goal with |- context [save_loop ?a ?b ?c] =>
      specialize (IH b); destruct (save_loop a b c) as [recs nl'] eqn:Hs end.
    simpl in *. rewrite IH.
    + f_equal. unfold msg_id. destruct (Z.gtb_spec (default 0 (j_id (serialize m))) nl); lia.
    + destruct (Z.gtb_spec (default 0 (j_id (serialize m))) nl); lia.
  - rewrite IH by lia. f_equal. unfold msg_id. lia.
Qed.

(** [save_messages] moves only the watermark of its own checkpoint file,
    and sets it to the largest of its previous value and the ids of the
    buffer: watermarks never go down on a save. *)
Theorem save_watermark_max (st0 : store) (messages : list pymsg) (out : path)
    (topic : option Z) :
  let k := path_str (get_temp_file_path out topic) in
  default 0 (last_saved_ids (save_messages st0 messages out topic) !! k)
    = fold_left Z.max (map msg_id messages) (default 0 (last_saved_ids st0 !! k)) /\
  (forall k', k' <> k ->
     last_saved_ids (save_messages st0 messages out topic) !! k' = last_saved_ids st0 !! k').
Proof.
  intros k. unfold save_messages. fold k.
  set (wm := default 0 (last_saved_ids st0 !! k)).
  pose proof (save_loop_snd_eq wm messages wm ltac:(lia)) as Heq.
  pose proof (save_loop_snd wm messages wm) as [Hge _].
  destruct (save_loop wm wm messages) as [recs nl]. simpl in *.
  destruct (Z.gtb_spec nl wm) as [Hgt|Hle].
  - split; [by rewrite lookup_insert_eq|]. intros k' Hk'. by rewrite lookup_insert_ne by congruence.
  - split; [|done]. fold wm. lia.
Qed.

(** Resuming and saving again: [load_messages] resets the watermark of the
    checkpoint to the id of its last record, so saving the resumed buffer
    (the loaded dicts, then newer fetched messages) appends again every
    loaded record whose id exceeds that last id. *)
Theorem load_then_save (st0 st1 : store) (out : path) (topic : option Z) (ls : list jline)
    (loaded : list jdict) (last_id : Z) (more : list pymsg) :
  let k := path_str (get_temp_file_path out topic) in
  files st0 !! k = Some ls ->
  load_messages st0 out topic = (st1, (loaded, last_id)) ->
  last_saved_ids st1 !! k = Some last_id /\
  files st1 = files st0 /\
  files (save_messages st1 (map Dict loaded ++ more) out topic) !! k
    = Some (ls ++ map record_of (filter (fun m => last_id < msg_id m) (map Dict loaded ++ more))).
Proof.
  intros k Hf Hl. unfold load_messages in Hl. fold k in Hl. rewrite Hf in Hl.
  destruct (load_loop [] 0 ls) as [ms l] eqn:El.
  injection Hl as <- <- <-. cbn [files last_saved_ids].
  split; [by rewrite lookup_insert_eq|]. split; [done|].
  destruct (save_messages_files (mkStore (files st0) (<[k:=l]> (last_saved_ids st0)))
              (map Dict ms ++ more) out topic) as [Hk _].
  fold k in Hk. rewrite Hk. cbn [files last_saved_ids].
  by rewrite Hf, lookup_insert_eq.
Qed.

Lemma load_then_save_witness :
  files (save_messages (fst (load_messages ckpt_after_resume chat_json None))
           (map Dict (fst (snd (load_messages ckpt_after_resume chat_json None))) ++ [])
           chat_json None) !! "chat.part.jsonl"
  = Some (map record_of (map Obj [tm 10 None; tm 9 None; tm 8 None; tm 10 None; tm 9 None])
          ++ map record_of (filter (fun m => 9 < msg_id m)
               (map Dict (fst (snd (load_messages ckpt_after_resume chat_json None))) ++ []))).
Proof.
  destruct (load_then_save ckpt_after_resume (fst (load_messages ckpt_after_resume chat_json None))
              chat_json None
              (map record_of (map Obj [tm 10 None; tm 9 None; tm 8 None; tm 10 None; tm 9 None]))
              (fst (snd (load_messages ckpt_after_resume chat_json None))) 9 []
              ltac:(vm_compute; reflexivity) ltac:(vm_compute; reflexivity)) as (_ & _ & H).
  exact H.
Defined.

(* ------------------------------------------------------------------ *)
(** ** Forum topics *)

Lemma py_dict_set_keys {K V : Type} `{EqDecision K} (d : list (K * V)) (k : K) (v : V) (i : K) :
  i ∈ map fst (py_dict_set d k v) <-> i = k \/ i ∈ map fst d.
Proof.
  induction d as [|[k' v'] d IH]; simpl.
  - rewrite list_elem_of_singleton. split; [by left|]. intros [->|Hi]; [done|inversion Hi].
  - case_decide as E; simpl; rewrite !elem_of_cons; [subst; tauto|].
    rewrite IH. tauto.
Qed.

Lemma py_dict_set_nodup {K V : Type} `{EqDecision K} (d : list (K * V)) (k : K) (v : V) :
  NoDup (map fst d) -> NoDup (map fst (py_dict_set d k v)).
Proof.
  induction d as [|[k' v'] d IH]; simpl; intros Hnd.
  - constructor; [intros Hi; inversion Hi|constructor].
  - apply NoDup_cons in Hnd as [Hn Hnd]. case_decide as E; simpl.
    + subst. by constructor.
    + constructor; [|by apply IH]. rewrite py_dict_set_keys. intros [->|Hi]; [done|done].
Qed.

Lemma topics_fold (ts : list (Z * string)) :
  forall g rest, NoDup (map fst rest) -> 1 ∉ map fst rest ->
  exists g' rest',
    fold_left (fun m '(i, t) => py_dict_set m i t) ts ((1, g) :: rest) = (1, g') :: rest' /\
    NoDup (map fst rest') /\ (1 ∉ map fst rest') /\
    (forall i, i ∈ map fst rest' <-> i ∈ map fst rest \/ (i <> 1 /\ i ∈ map fst ts)).
Proof.
  induction ts as [|[i t] ts IH]; intros g rest Hnd H1; simpl.
  - exists g, rest. split; [done|]. split; [done|]. split; [done|].
    intros i. split; [by left|]. intros [Hi|[_ Hi]]; [done|inversion Hi].
  - case_decide as E.
    + subst i. destruct (IH t rest Hnd H1) as (g' & rest' & Hf & Hn' & H1' & Hk).
      exists g', rest'. split; [done|]. split; [done|]. split; [done|].
      intros j. rewrite Hk, elem_of_cons. split; [tauto|].
      intros [Hj|[Hj1 [->|Hj2]]]; [tauto|done|tauto].
    + destruct (IH g (py_dict_set rest i t) (py_dict_set_nodup rest i t Hnd)
                  ltac:(rewrite py_dict_set_keys; intros [Hi|Hi]; [congruence|done]))
        as (g' & rest' & Hf & Hn' & H1' & Hk).
      exists g', rest'. split; [done|]. split; [done|]. split; [done|].
      intros j. rewrite Hk, py_dict_set_keys, elem_of_cons. split.
      * intros [[->|Hj]|[Hj1 Hj2]]; [right; split; [done|by left]|by left|right; split; [done|by right]].
      * intros [Hj|[Hj1 [->|Hj2]]]; [tauto|tauto|tauto].
Qed.

(** [download_chat] treats the chat as a forum (one download per topic)
    exactly when the entity is a megagroup and the forum request returns
    some topic whose id is not 1; the topic map then starts with topic 1
    and has no duplicate ids. *)
Theorem forum_iff_extra_topic (megagroup : bool) (r : topics_reply) :
  ((1 < length (get_all_topic_ids megagroup r))%nat <->
   megagroup = true /\ exists ts, r = TopicsOk ts /\ exists i t, (i, t) ∈ ts /\ i <> 1) /\
  NoDup (map fst (get_all_topic_ids megagroup r)) /\
  (forall ts, megagroup = true -> r = TopicsOk ts ->
   exists g, head (get_all_topic_ids megagroup r) = Some (1, g)).
Proof.
  destruct (topics_fold match r with TopicsOk ts => ts | _ => [] end "General" []
              ltac:(constructor) ltac:(intros Hi; inversion Hi))
    as (g' & rest' & Hf & Hn' & H1' & Hk).
  destruct megagroup; simpl; [|split; [split; [lia|intros [H _]; discriminate]|split; [constructor|discriminate]]].
  destruct r as [ts| | |]; simpl in *.
  - assert (E : get_all_topic_ids true (TopicsOk ts) = (1, g') :: rest') by exact Hf.
    rewrite E. simpl. split; [|split].
    + split.
      * intros Hl. destruct rest' as [|[j tj] rest'']; [simpl in Hl; lia|].
        destruct (proj1 (Hk j) ltac:(by left)) as [Hj|[Hj1 Hj2]]; [inversion Hj|].
        split; [done|]. exists ts. split; [done|].
        apply list_elem_of_In, in_map_iff in Hj2 as [[j' t'] [Hj' Hin]]. simpl in Hj'. subst j'.
        exists j, t'. split; [by apply list_elem_of_In|done].
      * intros [_ [ts' [Hts [i [t [Hin Hi]]]]]]. injection Hts as <-.
        destruct rest' as [|x rest'']; [|simpl; lia].
        exfalso.
        assert (Hx : i ∈ map fst (@nil (Z * string))).
        { apply (proj2 (Hk i)). right. split; [done|].
          apply list_elem_of_In, in_map_iff. exists (i, t). split; [done|by apply list_elem_of_In]. }
        inversion Hx.
    + constructor; [exact H1'|exact Hn'].
    + intros ts' _ _. by exists g'.
  - split; [split; [lia|intros [_ [ts [H _]]]; discriminate]|].
    split; [constructor; [intros Hi; inversion Hi|constructor]|intros ts _ H; discriminate].
  - split; [split; [lia|intros [_ [ts [H _]]]; discriminate]|].
    split; [constructor; [intros Hi; inversion Hi|constructor]|intros ts _ H; discriminate].
  - split; [split; [lia|intros [_ [ts [H _]]]; discriminate]|].
    split; [constructor|intros ts _ H; discriminate].
Qed.

Lemma download_topics_stopped (c : config) (topics : list (Z * string)) :
  forall runs st_ acc r ss, download_topics c topics runs st_ true acc = (r, ss) ->
  Forall (fun s => stop_requested s = true /\
                   Forall (fun ev => exists l, ev = ESave l) (trace s)) ss.
Proof.
  induction topics as [|[tid title] rest IH]; intros runs st_ acc r ss H; simpl in H.
  - injection H as _ <-. constructor.
  - destruct (default (0, []) (head runs)) as [t0 inputs].
    destruct (stop_session_gen (with_topic c (Some tid)) st_ t0 inputs)
      as ([res [Hr _]] & _ & Hs & Ht).
    destruct (download_chat_by_topic (with_topic c (Some tid)) st_ t0 true inputs) as [o s] eqn:E.
    simpl in Hr, Hs, Ht. subst o. rewrite Hs in H.
    destruct (download_topics c rest (tail runs) (st s) true _) as [r' ss'] eqn:E'.
    injection H as _ <-. constructor.
    + split; [done|]. eapply Forall_impl; [exact Ht|]. intros ev ->. by eexists.
    + by eapply IH.
Qed.

Lemma download_topics_stop_spreads (c : config) (topics : list (Z * string)) :
  forall runs st_ stop acc r ss1 s ss2,
  download_topics c topics runs st_ stop acc = (r, ss1 ++ s :: ss2) ->
  stop_requested s = true ->
  Forall (fun s' => stop_requested s' = true /\
                    Forall (fun ev => exists l, ev = ESave l) (trace s')) ss2.
Proof.
  induction topics as [|[tid title] rest IH]; intros runs st_ stop acc r ss1 s ss2 H Hs;
    simpl in H.
  - injection H as _ H. by destruct ss1.
  - destruct (default (0, []) (head runs)) as [t0 inputs].
    destruct (download_chat_by_topic (with_topic c (Some tid)) st_ t0 stop inputs)
      as [[msgs|e|] s0] eqn:E.
    + destruct (download_topics c rest (tail runs) (st s0) (stop_requested s0) _)
        as [r' ss'] eqn:E'.
      injection H as _ H. destruct ss1 as [|x ss1]; simpl in H; injection H as -> ->.
      * rewrite Hs in E'. by eapply download_topics_stopped.
      * by eapply IH.
    + injection H as _ H. destruct ss1 as [|x [|y ss1]]; simpl in H; injection H as -> H;
        [by subst|discriminate|discriminate].
    + injection H as _ H. destruct ss1 as [|x [|y ss1]]; simpl in H; injection H as -> H;
        [by subst|discriminate|discriminate].
Qed.

(** The stop request of [download_chat] is sticky across topics: once the
    download of one topic has seen it, every later topic returns at once
    with its resumed messages, making no page request (only a checkpoint
    save). *)
Theorem stop_spreads_across_topics (c : config) (topics : list (Z * string))
    (runs : list (Z * list input)) (st0 : store) (stop0 : bool)
    (r : dresult) (ss1 : list sess) (s : sess) (ss2 : list sess) :
  download_chat c topics runs st0 stop0 = (r, ss1 ++ s :: ss2) ->
  stop_requested s = true ->
  Forall (fun s' => stop_requested s' = true /\
                    Forall (fun ev => exists l, ev = ESave l) (trace s')) ss2.
Proof.
  unfold download_chat. destruct (1 <? length topics)%nat.
  - apply download_topics_stop_spreads.
  - destruct (default (0, []) (head runs)) as [t0 inputs].
    destruct (download_chat_by_topic (with_topic c None) st0 t0 stop0 inputs) as [[| |] s0];
      intros H _; injection H as _ H; destruct ss1 as [|x [|y ss1]]; simpl in H;
      injection H as -> H; try discriminate; by subst.
Qed.

Lemma stop_spreads_across_topics_witness :
  Forall (fun s' => stop_requested s' = true /\
                    Forall (fun ev => exists l, ev = ESave l) (trace s'))
    (drop 1 (snd (download_chat cfg_partial [(1, "General"); (5, "News")]
                    [(0, [IStop]); (0, [IResp (RPage [tm 3 None]) 1])] empty_store false))).
Proof.
  apply (stop_spreads_across_topics cfg_partial [(1, "General"); (5, "News")]
           [(0, [IStop]); (0, [IResp (RPage [tm 3 None]) 1])] empty_store false
           (fst (download_chat cfg_partial [(1, "General"); (5, "News")]
                   [(0, [IStop]); (0, [IResp (RPage [tm 3 None]) 1])] empty_store false))
           []
           (nth 0 (snd (download_chat cfg_partial [(1, "General"); (5, "News")]
                   [(0, [IStop]); (0, [IResp (RPage [tm 3 None]) 1])] empty_store false))
                (init_session cfg_partial empty_store 0 false))
           (drop 1 (snd (download_chat cfg_partial [(1, "General"); (5, "News")]
                   [(0, [IStop]); (0, [IResp (RPage [tm 3 None]) 1])] empty_store false))));
  vm_compute; reflexivity.
Defined.

(* ------------------------------------------------------------------ *)
(** ** Splitting by date *)

Lemma setdefault_append_lookup {A : Type} (d : list (string * list A)) (k key : string) (m : A) :
  assoc_lookup key (setdefault_append d k m)
  = if decide (key = k) then Some (default [] (assoc_lookup k d) ++ [m])
    else assoc_lookup key d.
Proof.
  induction d as [|[k' v] d IH]; simpl.
  - by repeat case_decide.
  - destruct (decide (k = k')) as [E1|E1]; simpl; rewrite ?IH;
      repeat case_decide; subst; try done; congruence.
Qed.

Lemma setdefault_append_keys {A : Type} (d : list (string * list A)) (k : string) (m : A) (i : string) :
  i ∈ map fst (setdefault_append d k m) <-> i = k \/ i ∈ map fst d.
Proof.
  induction d as [|[k' v] d IH]; simpl.
  - rewrite list_elem_of_singleton. split; [by left|]. intros [->|Hi]; [done|inversion Hi].
  - case_decide as E; simpl; rewrite !elem_of_cons; [subst; tauto|].
    rewrite IH. tauto.
Qed.

Lemma setdefault_append_nodup {A : Type} (d : list (string * list A)) (k : string) (m : A) :
  NoDup (map fst d) -> NoDup (map fst (setdefault_append d k m)).
Proof.
  induction d as [|[k' v] d IH]; simpl; intros Hnd.
  - constructor; [intros Hi; inversion Hi|constructor].
  - apply NoDup_cons in Hnd as [Hn Hnd]. case_decide as E; simpl.
    + by constructor.
    + constructor; [|by apply IH]. rewrite setdefault_append_keys. intros [->|Hi]; [done|done].
Qed.

Lemma split_go_spec (date_key : pymsg -> option string) (l : list pymsg) :
  forall acc key, NoDup (map fst acc) ->
  NoDup (map fst (split_go date_key acc l)) /\
  assoc_lookup key (split_go date_key acc l)
  = match assoc_lookup key acc with
    | Some prev => Some (prev ++ filter (fun m => date_key m = Some key) l)
    | None => match filter (fun m => date_key m = Some key) l with
              | [] => None
              | msgs => Some msgs
              end
    end.
Proof.
  induction l as [|m l IH]; intros acc key Hnd; simpl.
  - split; [done|]. destruct (assoc_lookup key acc); [by rewrite app_nil_r|done].
  - destruct (date_key m) as [k|] eqn:Ek.
    + destruct (IH (setdefault_append acc k m) key (setdefault_append_nodup acc k m Hnd))
        as [H1 H2].
      split; [done|]. rewrite H2, setdefault_append_lookup.
      case_decide as E.
      * subst k. rewrite filter_cons_True by done.
        destruct (assoc_lookup key acc); simpl; [by rewrite <- app_assoc|done].
      * rewrite filter_cons_False by congruence. done.
    + destruct (IH acc key Hnd) as [H1 H2]. split; [done|].
      rewrite H2, filter_cons_False by congruence. done.
Qed.

(** [split_messages_by_date] groups the messages by date key: the groups
    have distinct keys, the group of a key holds exactly the messages with
    that key in their original order, a key no message has gets no group,
    and messages without a key are in no group. *)
Theorem split_by_date_groups (date_key : pymsg -> option string) (messages : list pymsg) :
  NoDup (map fst (split_messages_by_date date_key messages)) /\
  forall key,
    assoc_lookup key (split_messages_by_date date_key messages)
    = match filter (fun m => date_key m = Some key) messages with
      | [] => None
      | msgs => Some msgs
      end.
Proof.
  destruct (split_go_spec date_key messages [] "" ltac:(constructor)) as [H _].
  split; [exact H|]. intros key.
  destruct (split_go_spec date_key messages [] key ltac:(constructor)) as [_ H2].
  exact H2.
Qed.

(* ------------------------------------------------------------------ *)
(** ** Keyword filtering and analysis *)

Section KeywordProofs.
Variable strip lower : string -> string.
Variable message_text : pymsg -> string.
Variable username_of url_of : pymsg -> option string.

Definition kw_hits (kws : list string) (m : pymsg) : bool :=
  existsb (fun kw => str_contains kw (lower (message_text m)))
    (map (fun k => lower (strip k)) (filter (fun k => negb (String.eqb (strip k) "")) kws)).

Lemma filter_kw_eq (msgs : list pymsg) (kws : list string) :
  filter_messages_by_keywords strip lower message_text msgs kws
  = match filter (fun k => negb (String.eqb (strip k) "")) kws with
    | [] => msgs
    | _ :: _ => filter (fun m => kw_hits kws m) msgs
    end.
Proof.
  unfold filter_messages_by_keywords, kw_hits. destruct kws as [|k0 ks]; [done|].
  by destruct (filter _ (k0 :: ks)).
Qed.

Lemma nonblank_filter_nil (kws : list string) :
  filter (fun k => negb (String.eqb (strip k) "")) kws = [] <->
  forall k, k ∈ kws -> strip k = "".
Proof.
  induction kws as [|k ks IH]; simpl.
  - split; [intros _ k Hk; inversion Hk|done].
  - destruct (String.eqb (strip k) "") eqn:E; simpl.
    + apply String.eqb_eq in E. rewrite filter_cons_False by (rewrite E; auto).
      rewrite IH. split.
      * intros H k' Hk'. apply elem_of_cons in Hk' as [->|Hk']; [done|by apply H].
      * intros H k' Hk'. apply H. by right.
    + rewrite filter_cons_True by (rewrite E; simpl; auto).
      split; [discriminate|]. intros H. apply String.eqb_neq in E.
      exfalso. apply E, H. by left.
Qed.

Lemma kw_hits_single (k : string) (m : pymsg) :
  strip k <> "" ->
  kw_hits [k] m = str_contains (lower (strip k)) (lower (message_text m)).
Proof.
  intros Hk. unfold kw_hits. apply String.eqb_neq in Hk.
  rewrite filter_cons_True by (rewrite Hk; simpl; auto). simpl.
  by rewrite orb_false_r.
Qed.

Lemma kw_hits_any (kws : list string) (m : pymsg) :
  kw_hits kws m = true <->
  exists k, k ∈ kws /\ strip k <> "" /\ kw_hits [k] m = true.
Proof.
  unfold kw_hits at 1. rewrite existsb_exists. split.
  - intros [kw [Hin Hc]]. apply in_map_iff in Hin as [k [<- Hk]].
    apply list_elem_of_In, list_elem_of_filter in Hk as [Hnb Hk].
    assert (Hne : strip k <> "").
    { intros E. rewrite E in Hnb. simpl in Hnb. done. }
    exists k. split; [done|]. split; [done|]. by rewrite kw_hits_single.
  - intros [k [Hk [Hne Hh]]]. rewrite kw_hits_single in Hh by done.
    exists (lower (strip k)). split; [|done].
    apply in_map_iff. exists k. split; [done|].
    apply list_elem_of_In, list_elem_of_filter. split; [|done].
    apply String.eqb_neq in Hne. by rewrite Hne.
Qed.

End KeywordProofs.

(** [filter_messages_by_keywords] keeps a subsequence of the messages: all
    of them when no keyword is non-blank after [strip]; otherwise exactly
    those that filtering by one of its non-blank keywords alone would keep
    (a message matches when its lowercased text contains the lowercased,
    stripped keyword). *)
Theorem keyword_filter_any (strip lower : string -> string) (message_text : pymsg -> string)
    (msgs : list pymsg) (kws : list string) :
  filter_messages_by_keywords strip lower message_text msgs kws `sublist_of` msgs /\
  ((forall k, k ∈ kws -> strip k = "") ->
   filter_messages_by_keywords strip lower message_text msgs kws = msgs) /\
  (forall m, m ∈ msgs ->
   (m ∈ filter_messages_by_keywords strip lower message_text msgs kws <->
    (forall k, k ∈ kws -> strip k = "") \/
    exists k, k ∈ kws /\ strip k <> "" /\
      filter_messages_by_keywords strip lower message_text [m] [k] = [m])).
Proof.
  rewrite filter_kw_eq.
  destruct (filter (fun k => negb (String.eqb (strip k) "")) kws) as [|k0 ks] eqn:Enb.
  - pose proof (proj1 (nonblank_filter_nil strip kws) Enb) as Hb. split; [done|]. split; [done|].
    intros m Hm. split; [by left|done].
  - assert (Hsome : ~ (forall k, k ∈ kws -> strip k = "")).
    { intros H. apply nonblank_filter_nil in H. congruence. }
    split; [apply sublist_filter|]. split; [done|].
    intros m Hm. rewrite list_elem_of_filter. split.
    + intros [Hh _]. right. apply Is_true_true in Hh.
      destruct (proj1 (kw_hits_any strip lower message_text kws m) Hh) as [k [Hk [Hne Hh1]]].
      exists k. split; [done|]. split; [done|].
      rewrite filter_kw_eq. apply String.eqb_neq in Hne.
      rewrite filter_cons_True by (rewrite Hne; simpl; auto).
      rewrite filter_cons_True; [done|by apply Is_true_true].
    + intros [H|[k [Hk [Hne Hf]]]]; [done|]. split; [|done].
      apply Is_true_true, (kw_hits_any strip lower message_text kws m). exists k. split; [done|].
      split; [done|]. rewrite filter_kw_eq in Hf.
      apply String.eqb_neq in Hne.
      rewrite filter_cons_True in Hf by (rewrite Hne; simpl; auto). simpl in Hf.
      apply Is_true_true. destruct (decide (kw_hits strip lower message_text [k] m)) as [Hy|Hn];
        [done|]. rewrite filter_cons_False in Hf by done. discriminate.
Qed.

Lemma analyze_one_spec (lower : string -> string) (message_text : pymsg -> string)
    (username_of url_of : pymsg -> option string) (kwl : string) (msgs : list pymsg) :
  analyze_one lower message_text username_of url_of kwl msgs
  = (Z.of_nat (length (filter (fun m => str_contains kwl (lower (message_text m))) msgs)),
     map (fun m => mkMatch (username_of m) (message_text m) (url_of m))
       (filter (fun m => str_contains kwl (lower (message_text m))) msgs)).
Proof.
  induction msgs as [|m ms IH]; simpl; [done|]. rewrite IH.
  destruct (str_contains kwl (lower (message_text m))) eqn:E.
  - rewrite filter_cons_True by (rewrite E; exact I). simpl. f_equal. lia.
  - rewrite filter_cons_False by (rewrite E; auto). done.
Qed.

(** [analyze_keywords] reports one entry per keyword that is non-blank
    after [strip], in order, with the stripped keyword as its text; its
    count is the number of messages [filter_messages_by_keywords] keeps for
    that keyword alone, and its matches list their texts in message order. *)
Theorem analyze_matches_filter (strip lower : string -> string) (message_text : pymsg -> string)
    (username_of url_of : pymsg -> option string) (kws : list string) (msgs : list pymsg) :
  Forall2 (fun kw r =>
      kr_text r = strip kw /\
      kr_count r = Z.of_nat (length (filter_messages_by_keywords strip lower message_text msgs [kw])) /\
      map km_text (kr_messages r)
        = map message_text (filter_messages_by_keywords strip lower message_text msgs [kw]))
    (filter (fun k => negb (String.eqb (strip k) "")) kws)
    (analyze_keywords strip lower message_text username_of url_of kws msgs).
Proof.
  induction kws as [|k ks IH]; cbn [analyze_keywords]; [simpl; constructor|].
  destruct (String.eqb (strip k) "") eqn:E.
  - rewrite filter_cons_False by (rewrite E; auto). exact IH.
  - rewrite filter_cons_True by (rewrite E; exact I).
    rewrite analyze_one_spec. constructor; [|exact IH].
    assert (Hf : filter_messages_by_keywords strip lower message_text msgs [k]
                 = filter (fun m => str_contains (lower (strip k)) (lower (message_text m))) msgs).
    { rewrite filter_kw_eq.
      rewrite filter_cons_True by (rewrite E; exact I). simpl.
      apply list_filter_iff. intros m.
      apply String.eqb_neq in E. rewrite kw_hits_single by done. done. }
    rewrite Hf. cbn [kr_text kr_count kr_messages]. split; [done|]. split; [done|].
    rewrite map_map. done.
Qed.
